(** * A PostgreSQL workflow node: statement building, batch execution,
      schema introspection and the credential self-test.

    The development embeds the two JavaScript objects of the package,
    [PostgresDbCredentials] (its [test] method) and [PostgresNode] (its
    [execute] method and the [getTables] option loader), as functions over
    a small model of JavaScript values, with the driver and the workflow
    host as explicit environments, and proves the properties the
    specification states about them. *)

From Stdlib Require Import String Ascii List ZArith Lia Bool Arith DecimalString.
Import ListNotations.
Open Scope string_scope.
Set Warnings "-register-all".

(** ** JavaScript values *)

Module Js.

(** Numbers are observed by the program through three things only: numeric
    literals, truthiness ([if (limit)], [data.port || 5432]) and conversion
    to text inside template literals.  The interface keeps exactly those. *)
Class JsNumber := {
  number : Type;
  num_of_Z : Z -> number;
  num_truthy : number -> bool;
  num_toString : number -> string
}.

(** Integers as an instance: zero is the only falsy integer, and the text
    is the decimal numeral. *)
Definition Z_toString (z : Z) : string := NilZero.string_of_int (Z.to_int z).

#[export] Instance ZNumber : JsNumber := {|
  number := Z;
  num_of_Z := fun z => z;
  num_truthy := fun z => negb (z =? 0)%Z;
  num_toString := Z_toString
|}.

Definition nat_toString (n : nat) : string := NilZero.string_of_uint (Nat.to_uint n).

Section Values.
Context {num : JsNumber}.

(** Strings are sequences of code units; objects list their own enumerable
    properties in property order. *)
Inductive JsVal : Type :=
| JUndefined
| JNull
| JBool (b : bool)
| JNum (n : number)
| JStr (s : string)
| JArr (elems : list JsVal)
| JObj (props : list (string * JsVal)).

(** What a [throw] carries: [new Error(msg)] has name ["Error"] and no
    [code]; driver errors carry the driver's [code]. *)
Record JsError := {
  err_name : string;
  err_message : string;
  err_code : option string
}.

Definition Error (msg : string) : JsError :=
  {| err_name := "Error"; err_message := msg; err_code := None |}.

Definition TypeError (msg : string) : JsError :=
  {| err_name := "TypeError"; err_message := msg; err_code := None |}.

(** [error.toString()], as [Error.prototype.toString] defines it. *)
Definition Error_toString (e : JsError) : string :=
  if String.eqb (err_name e) "" then err_message e
  else if String.eqb (err_message e) "" then err_name e
  else err_name e ++ ": " ++ err_message e.

(** ToBoolean. *)
Definition truthy (v : JsVal) : bool :=
  match v with
  | JUndefined | JNull => false
  | JBool b => b
  | JNum n => num_truthy n
  | JStr s => negb (String.eqb s "")
  | JArr _ | JObj _ => true
  end.

Definition str_truthy (s : string) : bool := negb (String.eqb s "").

(** [a || b] on strings. *)
Definition str_or (a b : string) : string := if str_truthy a then a else b.

(** [o.k] on a value: own data properties of objects, [undefined] elsewhere. *)
Fixpoint lookup (k : string) (props : list (string * JsVal)) : JsVal :=
  match props with
  | [] => JUndefined
  | (k', v) :: rest => if String.eqb k k' then v else lookup k rest
  end.

Definition get (v : JsVal) (k : string) : JsVal :=
  match v with
  | JObj props => lookup k props
  | _ => JUndefined
  end.

(** ** String methods *)

(** [s.split(",")]: one piece per separator, plus one. *)
Fixpoint split (sep : ascii) (s : string) : list string :=
  match s with
  | EmptyString => [EmptyString]
  | String c rest =>
      if Ascii.eqb c sep then EmptyString :: split sep rest
      else match split sep rest with
           | [] => [String c EmptyString]
           | piece :: pieces => String c piece :: pieces
           end
  end.

(** White space and line terminators among the code units below 256:
    TAB, LF, VT, FF, CR, SPACE and NBSP. *)
Definition is_space (c : ascii) : bool :=
  let n := nat_of_ascii c in
  (((9 <=? n) && (n <=? 13)) || (n =? 32) || (n =? 160))%nat.

Fixpoint trimStart (s : string) : string :=
  match s with
  | EmptyString => EmptyString
  | String c rest => if is_space c then trimStart rest else s
  end.

(** Drops trailing white space: a space is kept only when something
    non-blank follows it. *)
Fixpoint trimEnd (s : string) : string :=
  match s with
  | EmptyString => EmptyString
  | String c rest =>
      match trimEnd rest with
      | EmptyString => if is_space c then EmptyString else String c EmptyString
      | kept => String c kept
      end
  end.

Definition trim (s : string) : string := trimEnd (trimStart s).

(** [xs.join(sep)] on strings. *)
Fixpoint join (sep : string) (xs : list string) : string :=
  match xs with
  | [] => ""
  | [x] => x
  | x :: rest => x ++ sep ++ join sep rest
  end.

(** ToString on plain values, as a template literal applies it: arrays
    join their elements with commas ([null] and [undefined] as the empty
    text), plain objects give ["[object Object]"]. *)
Fixpoint ToString (v : JsVal) : string :=
  match v with
  | JUndefined => "undefined"
  | JNull => "null"
  | JBool true => "true"
  | JBool false => "false"
  | JNum n => num_toString n
  | JStr s => s
  | JArr elems =>
      join "," (map (fun e => match e with
                              | JUndefined | JNull => ""
                              | _ => ToString e
                              end) elems)
  | JObj _ => "[object Object]"
  end.

(** ** Objects *)

(** [Object.entries(v)] for the values [JSON.parse] can produce: the own
    enumerable string-keyed properties; it throws on [null] and
    [undefined]. *)
Fixpoint indexed {A} (i : nat) (xs : list A) : list (string * A) :=
  match xs with
  | [] => []
  | x :: rest => (nat_toString i, x) :: indexed (S i) rest
  end.

Fixpoint chars (s : string) : list JsVal :=
  match s with
  | EmptyString => []
  | String c rest => JStr (String c EmptyString) :: chars rest
  end.

Definition Object_entries (v : JsVal) : JsError + list (string * JsVal) :=
  match v with
  | JUndefined | JNull => inl (TypeError "Cannot convert undefined or null to object")
  | JBool _ | JNum _ => inr []
  | JStr s => inr (indexed 0 (chars s))
  | JArr elems => inr (indexed 0 elems)
  | JObj props => inr props
  end.

(** [o[k] = v] on a plain object.  The key ["__proto__"] reaches the
    accessor of [Object.prototype] and creates no own property; an
    existing key keeps its place; a fresh key comes last (the keys arrive
    here in the property order of another object, which this keeps). *)
Fixpoint assign (k : string) (v : JsVal) (props : list (string * JsVal))
  : list (string * JsVal) :=
  match props with
  | [] => [(k, v)]
  | (k', v') :: rest =>
      if String.eqb k k' then (k, v) :: rest else (k', v') :: assign k v rest
  end.

Definition set_prop (props : list (string * JsVal)) (k : string) (v : JsVal)
  : list (string * JsVal) :=
  if String.eqb k "__proto__" then props else assign k v props.

Definition Object_keys (props : list (string * JsVal)) : list string := map fst props.
Definition Object_values (props : list (string * JsVal)) : list JsVal := map snd props.

End Values.
End Js.

(** ** The driver: connection pools and their effects *)

Module Pg.
Import Js.

Section Driver.
Context {num : JsNumber}.

(** The options object handed to [new Pool(...)].  [ssl] is [true] for
    [{ rejectUnauthorized: false }] and [false] for [false]. *)
Record PoolConfig := {
  host : string;
  port : number;
  database : string;
  user : string;
  password : string;
  ssl : bool;
  max : number;
  idleTimeoutMillis : option number;
  connectionTimeoutMillis : number
}.

Record Field := { name : JsVal; dataTypeID : JsVal }.

(** What [pool.query] resolves to. *)
Record QueryResult := {
  rows : list JsVal;
  rowCount : JsVal;
  command : JsVal;
  fields : option (list Field)
}.

Definition Query : Type := string * list JsVal.

(** The world outside the program: the server, which answers a query
    knowing the queries that came before it, and the record of what the
    program did: the pools it created, the queries it sent, and how many
    times [pool.end()] was called. *)
Record World := {
  server : list Query -> Query -> JsError + QueryResult;
  pools : list PoolConfig;
  sent : list Query;
  ended : nat
}.

(** Computations that act on the world and either return or throw. *)
Definition M (A : Type) : Type := World -> (JsError + A) * World.

Definition ret {A} (a : A) : M A := fun w => (inr a, w).

Definition throw {A} (e : JsError) : M A := fun w => (inl e, w).

Definition bind {A B} (m : M A) (k : A -> M B) : M B :=
  fun w =>
    match m w with
    | (inr a, w') => k a w'
    | (inl e, w') => (inl e, w')
    end.

(** [try { m } catch (error) { handler error }] *)
Definition try_catch {A} (m : M A) (handler : JsError -> M A) : M A :=
  fun w =>
    match m w with
    | (inr a, w') => (inr a, w')
    | (inl e, w') => handler e w'
    end.

(** [try { m } finally { cleanup }] *)
Definition try_finally {A} (m : M A) (cleanup : M unit) : M A :=
  fun w =>
    match m w with
    | (r, w') =>
        match cleanup w' with
        | (inr _, w'') => (r, w'')
        | (inl e, w'') => (inl e, w'')
        end
    end.

Definition lift {A} (r : JsError + A) : M A :=
  match r with
  | inl e => throw e
  | inr a => ret a
  end.

Fixpoint mapM {A B} (f : A -> M B) (xs : list A) : M (list B) :=
  match xs with
  | [] => ret []
  | x :: rest =>
      bind (f x) (fun y => bind (mapM f rest) (fun ys => ret (y :: ys)))
  end.

(** [v.k]: reading a property of [null] or [undefined] throws. *)
Definition read (v : JsVal) (k : string) : M JsVal :=
  match v with
  | JUndefined =>
      throw (TypeError ("Cannot read properties of undefined (reading '" ++ k ++ "')"))
  | JNull =>
      throw (TypeError ("Cannot read properties of null (reading '" ++ k ++ "')"))
  | _ => ret (get v k)
  end.

(** [new Pool(config)] *)
Definition new_Pool (config : PoolConfig) : M unit :=
  fun w => (inr tt, {| server := server w; pools := pools w ++ [config];
                       sent := sent w; ended := ended w |}).

(** [await pool.query(text, params)] *)
Definition pool_query (text : string) (params : list JsVal) : M QueryResult :=
  fun w => (server w (sent w) (text, params),
            {| server := server w; pools := pools w;
               sent := sent w ++ [(text, params)]; ended := ended w |}).

(** [await pool.end()] *)
Definition pool_end : M unit :=
  fun w => (inr tt, {| server := server w; pools := pools w;
                       sent := sent w; ended := S (ended w) |}).

End Driver.

Declare Scope js_scope.
Notation "x <- m ;; k" := (bind m (fun x => k))
  (at level 61, m at next level, right associativity) : js_scope.
Notation "m ;; k" := (bind m (fun _ => k))
  (at level 61, right associativity) : js_scope.

End Pg.

(** ** The credential type and its connectivity self-test *)

Module PostgresDbCredentials.
Import Js.
Import Pg.
Local Open Scope js_scope.

Section Credentials.
Context {num : JsNumber}.

(** A credential record, with the fields the [properties] list declares.
    [port] and [ssl] may be left out. *)
Record Data := {
  host : string;
  port : option number;
  database : string;
  user : string;
  password : string;
  ssl : option bool
}.

(** [data.port || 5432] *)
Definition port_or_default (p : option number) : number :=
  match p with
  | Some n => if num_truthy n then n else num_of_Z 5432
  | None => num_of_Z 5432
  end.

(** [data.ssl ? ... : ...] *)
Definition flag (b : option bool) : bool :=
  match b with
  | Some true => true
  | _ => false
  end.

Record TestResult := { success : bool; message : string }.

Definition dquote : string := String (ascii_of_nat 34) EmptyString.

(** *** [version.match(/PostgreSQL ([\d.]+)/)] *)

Definition is_digit_or_dot (c : ascii) : bool :=
  let n := nat_of_ascii c in
  (((48 <=? n) && (n <=? 57)) || (n =? 46))%nat.

Fixpoint strip_prefix (p s : string) : option string :=
  match p, s with
  | EmptyString, _ => Some s
  | String a p', String b s' => if Ascii.eqb a b then strip_prefix p' s' else None
  | String _ _, EmptyString => None
  end.

Fixpoint digits_and_dots (s : string) : string :=
  match s with
  | EmptyString => EmptyString
  | String c rest => if is_digit_or_dot c then String c (digits_and_dots rest) else EmptyString
  end.

(** The first capture group of the leftmost match, if there is a match. *)
Fixpoint match_version (s : string) : option string :=
  let here :=
    match strip_prefix "PostgreSQL " s with
    | Some rest =>
        match digits_and_dots rest with
        | EmptyString => None
        | captured => Some captured
        end
    | None => None
    end in
  match here with
  | Some captured => Some captured
  | None =>
      match s with
      | EmptyString => None
      | String _ rest => match_version rest
      end
  end.

(** [version.match(...)] exists on strings only. *)
Definition version_match (version : JsVal) : M (option string) :=
  match version with
  | JStr s => ret (match_version s)
  | JUndefined => throw (TypeError "Cannot read properties of undefined (reading 'match')")
  | JNull => throw (TypeError "Cannot read properties of null (reading 'match')")
  | _ => throw (TypeError "version.match is not a function")
  end.

Definition test_query : string :=
  "SELECT NOW() as current_time, version() as version".

Definition test_pool_config (data : Data) : PoolConfig :=
  {| Pg.host := host data;
     Pg.port := port_or_default (port data);
     Pg.database := database data;
     Pg.user := user data;
     Pg.password := password data;
     Pg.ssl := flag (ssl data);
     Pg.connectionTimeoutMillis := num_of_Z 5000;
     Pg.max := num_of_Z 1;
     Pg.idleTimeoutMillis := None |}.

Definition failure (msg : string) : TestResult :=
  {| success := false; message := msg |}.

Definition code_is (error : JsError) (code : string) : bool :=
  match err_code error with
  | Some c => String.eqb c code
  | None => false
  end.

(** The [catch (error)] block of [test]. *)
Definition diagnose (data : Data) (error : JsError) : TestResult :=
  if code_is error "ECONNREFUSED" then
    failure ("Cannot connect to database server at " ++ host data ++ ":"
             ++ num_toString (port_or_default (port data)) ++ ". Connection refused.")
  else if code_is error "ENOTFOUND" then
    failure ("Cannot resolve host: " ++ host data ++ ". Please check the hostname.")
  else if code_is error "ETIMEDOUT" then
    failure ("Connection timeout to " ++ host data ++ ":"
             ++ num_toString (port_or_default (port data))
             ++ ". Please check firewall and network settings.")
  else if code_is error "28P01" then
    failure "Authentication failed. Invalid username or password."
  else if code_is error "3D000" then
    failure ("Database " ++ dquote ++ database data ++ dquote ++ " does not exist.")
  else if code_is error "28000" then
    failure "Authorization failed. User does not have access to this database."
  else if code_is error "08001" then
    failure "Unable to establish connection. Please check server settings."
  else
    failure ("Connection failed: " ++ str_or (err_message error) "Unknown error").

Definition test (data : Data) : M TestResult :=
  if negb (str_truthy (host data)) || negb (str_truthy (database data))
     || negb (str_truthy (user data)) || negb (str_truthy (password data))
  then ret (failure "Host, database, user, and password are required")
  else
    try_catch
      (new_Pool (test_pool_config data) ;;
       try_catch
         (result <- pool_query test_query [] ;;
          pool_end ;;
          match rows result with
          | row :: _ =>
              version <- read row "version" ;;
              versionMatch <- version_match version ;;
              let versionStr :=
                match versionMatch with
                | Some v => v
                | None => "Unknown"
                end in
              ret {| success := true;
                     message := "Connected successfully to PostgreSQL " ++ versionStr
                                ++ " at " ++ host data ++ ":"
                                ++ num_toString (port_or_default (port data))
                                ++ "/" ++ database data |}
          | [] =>
              pool_end ;;
              ret {| success := true; message := "Connection successful" |}
          end)
         (fun queryError => pool_end ;; throw queryError))
      (fun error => ret (diagnose data error)).

End Credentials.
End PostgresDbCredentials.

(** ** The node: statement building and batch execution *)

Module PostgresNode.
Import Js.
Import Pg.
Module Cred := PostgresDbCredentials.
Local Open Scope js_scope.

Section Node.
Context {num : JsNumber}.

(** Calls of [this.logger] change no result and are left out.

    The values [this.getNodeParameter] resolves, typed as the [properties]
    list declares them.  Only [columnsMap] is asked for with the item
    index, and the code itself tells a string from an object there. *)
Record Parameters := {
  operation : string;
  query : string;
  queryParams : string;
  table : string;
  columnsMap : nat -> JsVal;
  returnAll : bool;
  limit : number;
  where_ : string;
  whereParams : string;
  columns : string;
  orderBy : string;
  returnFields : string
}.

(** [this.settings]; a field left out is [None]. *)
Record Settings := {
  continueOnFail : option bool;
  ssl : option bool;
  connectionTimeout : option number
}.

(** The host object the methods run on: [this.settings],
    [this.getCredentials("postgresDb")] (which may throw, or resolve to
    nothing) and [this.getNodeParameter]. *)
Record This := {
  settings : option Settings;
  getCredentials : JsError + option Cred.Data;
  getNodeParameter : Parameters
}.

(** [inputData.main], when present. *)
Record InputData := { main : option (list (list JsVal)) }.

(** [JSON.parse], a built-in of the language: a value, or the
    [SyntaxError] it throws. *)
Variable JSON_parse : string -> JsError + JsVal.

Variable this : This.

(** [a ?? b] *)
Definition nullish_or {A} (a : option A) (b : A) : A :=
  match a with
  | Some x => x
  | None => b
  end.

(** [this.settings?.f] *)
Definition setting {A} (f : Settings -> option A) : option A :=
  match settings this with
  | Some s => f s
  | None => None
  end.

(** [s.split(",").map((p) => p.trim())] *)
Definition split_params (s : string) : list JsVal :=
  map (fun p => JStr (trim p)) (split "," s).

Fixpoint mapi_from {A B} (f : A -> nat -> B) (i : nat) (xs : list A) : list B :=
  match xs with
  | [] => []
  | x :: rest => f x i :: mapi_from f (S i) rest
  end.

(** [xs.map((x, i) => f x i)] *)
Definition mapi {A B} (f : A -> nat -> B) (xs : list A) : list B := mapi_from f 0 xs.

Definition dquote : string := Cred.dquote.

Definition json (props : list (string * JsVal)) : JsVal :=
  JObj [("json", JObj props)].

(** *** The five operations *)

Definition executeQuery_case : M JsVal :=
  let queryText := query (getNodeParameter this) in
  let paramsStr := queryParams (getNodeParameter this) in
  let queryParams := if str_truthy paramsStr then split_params paramsStr else [] in
  result <- pool_query queryText queryParams ;;
  ret (json [("rows", JArr (rows result));
             ("rowCount", rowCount result);
             ("command", command result);
             ("fields",
              match fields result with
              | Some fs =>
                  JArr (map (fun f => JObj [("name", name f); ("dataType", dataTypeID f)]) fs)
              | None => JUndefined
              end)]).

Definition select_case : M JsVal :=
  let table := table (getNodeParameter this) in
  let columns := str_or (columns (getNodeParameter this)) "*" in
  let where_ := where_ (getNodeParameter this) in
  let whereParamsStr := whereParams (getNodeParameter this) in
  let returnAll := returnAll (getNodeParameter this) in
  let limit := if returnAll then None else Some (limit (getNodeParameter this)) in
  let orderBy := orderBy (getNodeParameter this) in
  let queryText := "SELECT " ++ columns ++ " FROM " ++ table in
  let queryParams :=
    if str_truthy where_ then
      if str_truthy whereParamsStr then split_params whereParamsStr else []
    else [] in
  let queryText := if str_truthy where_ then queryText ++ " WHERE " ++ where_ else queryText in
  let queryText := if str_truthy orderBy then queryText ++ " ORDER BY " ++ orderBy else queryText in
  let queryText :=
    match limit with
    | Some n => if num_truthy n then queryText ++ " LIMIT " ++ num_toString n else queryText
    | None => queryText
    end in
  result <- pool_query queryText queryParams ;;
  ret (json [("rows", JArr (rows result)); ("rowCount", rowCount result)]).

(** The column map as an object: parsed when it is a string, [{}] when it
    is falsy. *)
Definition resolve_data (columnsMap : JsVal) : JsError + JsVal :=
  match columnsMap with
  | JStr s =>
      match JSON_parse s with
      | inr data => inr data
      | inl e => inl (Error ("Invalid JSON in columnsMap: " ++ err_message e))
      end
  | _ => inr (if truthy columnsMap then columnsMap else JObj [])
  end.

(** [value !== "" && value !== null && value !== undefined] *)
Definition kept (value : JsVal) : bool :=
  match value with
  | JStr EmptyString | JNull | JUndefined => false
  | _ => true
  end.

(** The loop that copies the kept entries into [filteredData]. *)
Fixpoint filter_entries (filteredData : list (string * JsVal))
    (entries : list (string * JsVal)) : list (string * JsVal) :=
  match entries with
  | [] => filteredData
  | (key, value) :: rest =>
      filter_entries
        (if kept value then set_prop filteredData key value else filteredData) rest
  end.

Definition filter_data (data : JsVal) : JsError + list (string * JsVal) :=
  match Object_entries data with
  | inr entries => inr (filter_entries [] entries)
  | inl e => inl e
  end.

Definition insert_case (i : nat) : M JsVal :=
  let table := table (getNodeParameter this) in
  let columnsMap := columnsMap (getNodeParameter this) i in
  let returnFields := str_or (returnFields (getNodeParameter this)) "*" in
  data <- lift (resolve_data columnsMap) ;;
  filteredData <- lift (filter_data data) ;;
  if (length (Object_keys filteredData) =? 0)%nat then
    throw (Error "No data provided for insert. Please map at least one column.")
  else
    let columns := Object_keys filteredData in
    let values := Object_values filteredData in
    let placeholders :=
      join ", " (mapi (fun _ i => "$" ++ nat_toString (i + 1)) values) in
    let quotedColumns := join ", " (map (fun col => dquote ++ col ++ dquote) columns) in
    let queryText :=
      "INSERT INTO " ++ table ++ " (" ++ quotedColumns ++ ") VALUES ("
      ++ placeholders ++ ") RETURNING " ++ returnFields in
    let queryParams := values in
    result <- pool_query queryText queryParams ;;
    ret (json [("inserted", nth 0 (rows result) JUndefined);
               ("rowCount", rowCount result)]).

Definition update_case (i : nat) : M JsVal :=
  let table := table (getNodeParameter this) in
  let columnsMap := columnsMap (getNodeParameter this) i in
  let where_ := where_ (getNodeParameter this) in
  let whereParamsStr := whereParams (getNodeParameter this) in
  let returnFields := str_or (returnFields (getNodeParameter this)) "*" in
  if negb (str_truthy where_) then
    throw (Error "WHERE clause is required for UPDATE operation to prevent accidental updates")
  else
    data <- lift (resolve_data columnsMap) ;;
    filteredData <- lift (filter_data data) ;;
    if (length (Object_keys filteredData) =? 0)%nat then
      throw (Error "No data provided for update. Please map at least one column.")
    else
      let columns := Object_keys filteredData in
      let values := Object_values filteredData in
      let setClause :=
        join ", " (mapi (fun col i => dquote ++ col ++ dquote ++ " = $" ++ nat_toString (i + 1))
                        columns) in
      let queryParams :=
        (values ++ (if str_truthy whereParamsStr then split_params whereParamsStr else []))%list in
      let queryText :=
        "UPDATE " ++ table ++ " SET " ++ setClause ++ " WHERE " ++ where_
        ++ " RETURNING " ++ returnFields in
      result <- pool_query queryText queryParams ;;
      ret (json [("updated", JArr (rows result)); ("rowCount", rowCount result)]).

Definition delete_case : M JsVal :=
  let table := table (getNodeParameter this) in
  let where_ := where_ (getNodeParameter this) in
  let whereParamsStr := whereParams (getNodeParameter this) in
  if negb (str_truthy where_) then
    throw (Error "WHERE clause is required for DELETE operation to prevent accidental deletion")
  else
    let queryText := "DELETE FROM " ++ table ++ " WHERE " ++ where_ in
    let queryParams := if str_truthy whereParamsStr then split_params whereParamsStr else [] in
    result <- pool_query queryText queryParams ;;
    ret (json [("deleted", JBool true); ("rowCount", rowCount result)]).

(** The [switch (operation)] of the loop body; it returns the record the
    case pushes onto [results]. *)
Definition run_operation (operation : string) (i : nat) : M JsVal :=
  if String.eqb operation "executeQuery" then executeQuery_case
  else if String.eqb operation "select" then select_case
  else if String.eqb operation "insert" then insert_case i
  else if String.eqb operation "update" then update_case i
  else if String.eqb operation "delete" then delete_case
  else throw (Error ("Unknown operation: " ++ operation)).

(** The record the [catch] block pushes under [continueOnFail]. *)
Definition error_item (error : JsError) : JsVal :=
  json [("error", JBool true);
        ("errorMessage", JStr (err_message error));
        ("errorDetails", JStr (Error_toString error))].

(** One turn of the [for] loop: the inner [try]/[catch] around the switch. *)
Definition process_item (continueOnFail : bool) (operation : string)
    (results : list JsVal) (i : nat) : M (list JsVal) :=
  try_catch
    (pushed <- run_operation operation i ;;
     ret (results ++ [pushed])%list)
    (fun error =>
       if continueOnFail then ret (results ++ [error_item error])%list
       else throw error).

(** [for (let i = 0; i < itemsToProcess.length; i++)], from index [i] on. *)
Fixpoint item_loop (continueOnFail : bool) (operation : string)
    (itemsToProcess : list JsVal) (i : nat) (results : list JsVal) : M (list JsVal) :=
  match itemsToProcess with
  | [] => ret results
  | _item :: rest =>
      results' <- process_item continueOnFail operation results i ;;
      item_loop continueOnFail operation rest (S i) results'
  end.

(** [inputData.main?.[0] || []] *)
Definition input_items (inputData : InputData) : list JsVal :=
  match main inputData with
  | Some (items :: _) => items
  | _ => []
  end.

(** [items.length > 0 ? items : [{ json: {} }]] *)
Definition items_to_process (items : list JsVal) : list JsVal :=
  if (0 <? length items)%nat then items else [json []].

(** [this.settings?.continueOnFail ?? false] *)
Definition continueOnFail_setting : bool :=
  nullish_or (setting continueOnFail) false.

Definition credentials_required : string :=
  "PostgreSQL credentials are required. Please select credentials in the Authentication field.".

(** The pool options of [execute], from the credentials and the settings. *)
Definition execute_pool_config (credentials : Cred.Data) : PoolConfig :=
  {| Pg.host := Cred.host credentials;
     Pg.port := Cred.port_or_default (Cred.port credentials);
     Pg.database := Cred.database credentials;
     Pg.user := Cred.user credentials;
     Pg.password := Cred.password credentials;
     Pg.ssl := nullish_or (setting ssl) (nullish_or (Cred.ssl credentials) false);
     Pg.max := num_of_Z 10;
     Pg.idleTimeoutMillis := Some (num_of_Z 30000);
     Pg.connectionTimeoutMillis := nullish_or (setting connectionTimeout) (num_of_Z 2000) |}.

(** The first [try]/[catch] of [execute]: the credentials, or the error
    that stops the run before a pool exists. *)
Definition read_credentials : M Cred.Data :=
  try_catch
    (credentials <- lift (getCredentials this) ;;
     match credentials with
     | Some c =>
         if str_truthy (Cred.host c) then ret c
         else throw (Error credentials_required)
     | None => throw (Error credentials_required)
     end)
    (fun error => throw (Error ("Failed to get credentials: " ++ err_message error))).

(** What [execute] returns: [[{ main: results }]]. *)
Definition output (results : list JsVal) : JsVal :=
  JArr [JObj [("main", JArr results)]].

Definition execute (inputData : InputData) : M JsVal :=
  let items := input_items inputData in
  let itemsToProcess := items_to_process items in
  let continueOnFail := continueOnFail_setting in
  credentials <- read_credentials ;;
  let operation := operation (getNodeParameter this) in
  new_Pool (execute_pool_config credentials) ;;
  results <- try_finally
               (item_loop continueOnFail operation itemsToProcess 0 [])
               pool_end ;;
  ret (output results).

(** *** [loadOptions.getTables] *)

Definition tables_query : string :=
  "
          SELECT table_name 
          FROM information_schema.tables 
          WHERE table_schema = 'public' 
          AND table_type = 'BASE TABLE'
          ORDER BY table_name
        ".

(** The pool options of the option loaders. *)
Definition loadOptions_pool_config (credentials : Cred.Data) : PoolConfig :=
  {| Pg.host := Cred.host credentials;
     Pg.port := Cred.port_or_default (Cred.port credentials);
     Pg.database := Cred.database credentials;
     Pg.user := Cred.user credentials;
     Pg.password := Cred.password credentials;
     Pg.ssl := nullish_or (setting ssl) (nullish_or (Cred.ssl credentials) false);
     Pg.max := num_of_Z 1;
     Pg.idleTimeoutMillis := None;
     Pg.connectionTimeoutMillis := nullish_or (setting connectionTimeout) (num_of_Z 5000) |}.

(** One entry of a dropdown: [{ name, value, description }]. *)
Definition option_item (name value description : JsVal) : JsVal :=
  JObj [("name", name); ("value", value); ("description", description)].

Definition no_credentials_selected : JsVal :=
  option_item (JStr "No credentials selected") (JStr "")
              (JStr "Please select PostgreSQL credentials first").

Definition getTables : M (list JsVal) :=
  match getCredentials this with
  | inl error =>
      ret [option_item (JStr "Error: Credentials required") (JStr "")
                       (JStr (err_message error))]
  | inr None => ret [no_credentials_selected]
  | inr (Some credentials) =>
      if negb (str_truthy (Cred.host credentials)) then ret [no_credentials_selected]
      else
        new_Pool (loadOptions_pool_config credentials) ;;
        try_catch
          (result <- pool_query tables_query [] ;;
           pool_end ;;
           mapM (fun row =>
                   table_name <- read row "table_name" ;;
                   ret (option_item table_name table_name
                                    (JStr ("Table: " ++ ToString table_name))))
                (rows result))
          (fun error =>
             pool_end ;;
             ret [option_item (JStr "Error loading tables - check credentials")
                              (JStr "") (JStr (err_message error))])
  end.

(** *** [loadOptions.getColumnsForMap] *)

Definition columns_query : string :=
  "
          SELECT 
            column_name, 
            data_type, 
            is_nullable,
            column_default,
            character_maximum_length,
            numeric_precision,
            numeric_scale
          FROM information_schema.columns 
          WHERE table_schema = 'public' 
          AND table_name = $1
          ORDER BY ordinal_position
        ".

(** [v === "YES"] *)
Definition is_YES (v : JsVal) : bool :=
  match v with
  | JStr s => String.eqb s "YES"
  | _ => false
  end.

(** An element of an array as [join] writes it: nothing for [null] and
    [undefined]. *)
Definition join_text (v : JsVal) : string :=
  match v with
  | JUndefined | JNull => ""
  | _ => ToString v
  end.

(** [typeInfo], once the pushes of the callback are done, element by
    element as [join] writes them. *)
Definition typeInfo (row : JsVal) : list string :=
  let size :=
    if truthy (get row "character_maximum_length") then
      ["(" ++ ToString (get row "character_maximum_length") ++ ")"]
    else if truthy (get row "numeric_precision") then
      ["(" ++ ToString (get row "numeric_precision")
       ++ (if truthy (get row "numeric_scale")
           then "," ++ ToString (get row "numeric_scale") else "")
       ++ ")"]
    else [] in
  let nullable := if is_YES (get row "is_nullable") then ["nullable"] else [] in
  let default :=
    if truthy (get row "column_default")
    then ["default: " ++ ToString (get row "column_default")] else [] in
  ([join_text (get row "data_type")] ++ size ++ nullable ++ default)%list.

(** The callback of [result.rows.map]: one entry of the column map. *)
Definition column_item (row : JsVal) : M JsVal :=
  _data_type <- read row "data_type" ;;
  ret (JObj [("name", get row "column_name");
             ("value", get row "column_name");
             ("displayName", get row "column_name");
             ("description", JStr (join " " (typeInfo row)));
             ("type", JStr "expression");
             ("placeholder",
              JStr ("Enter value for " ++ ToString (get row "column_name") ++ "..."))]).

Definition getColumnsForMap : M (list JsVal) :=
  let table := table (getNodeParameter this) in
  if negb (str_truthy table) then ret []
  else
    match getCredentials this with
    | inl _error => ret []
    | inr None => ret []
    | inr (Some credentials) =>
        if negb (str_truthy (Cred.host credentials)) then ret []
        else
          new_Pool (loadOptions_pool_config credentials) ;;
          try_catch
            (result <- pool_query columns_query [JStr table] ;;
             pool_end ;;
             mapM column_item (rows result))
            (fun _error => pool_end ;; ret [])
    end.

End Node.
End PostgresNode.

(** * Concrete inputs used by the examples *)

Module Fixtures.
Import Js.
Import Pg.
Module Cred := PostgresDbCredentials.
Module Node := PostgresNode.

(** A stand-in for [JSON.parse] in the examples, which all pass their
    column maps as objects: it accepts the two shortest documents. *)
Definition parse (s : string) : JsError + JsVal :=
  if String.eqb s "{}" then inr (JObj [])
  else if String.eqb s "null" then inr JNull
  else inl {| err_name := "SyntaxError";
              err_message := "Unexpected token";
              err_code := None |}.

Definition credentials : Cred.Data :=
  {| Cred.host := "db.example.com"; Cred.port := None; Cred.database := "app";
     Cred.user := "postgres"; Cred.password := "secret"; Cred.ssl := None |}.

Definition one_row : QueryResult :=
  {| rows := [JObj [("id", JNum 1%Z)]]; rowCount := JNum 1%Z;
     command := JStr "SELECT"; fields := None |}.

(** A server that answers every query with one row. *)
Definition answering : World :=
  {| server := fun _ _ => inr one_row; pools := []; sent := []; ended := 0 |}.

Definition refused : JsError :=
  {| err_name := "Error"; err_message := "connect ECONNREFUSED 127.0.0.1:5432";
     err_code := Some "ECONNREFUSED" |}.

(** A server nobody can reach. *)
Definition unreachable : World :=
  {| server := fun _ _ => inl refused; pools := []; sent := []; ended := 0 |}.

Definition parameters (operation where_ whereParams : string)
    (columnsMap : nat -> JsVal) (returnAll : bool) (limit : Z) : Node.Parameters :=
  {| Node.operation := operation; Node.query := "SELECT 1"; Node.queryParams := "";
     Node.table := "users"; Node.columnsMap := columnsMap;
     Node.returnAll := returnAll; Node.limit := limit;
     Node.where_ := where_; Node.whereParams := whereParams;
     Node.columns := "*"; Node.orderBy := ""; Node.returnFields := "*" |}.

Definition node (settings : option Node.Settings) (p : Node.Parameters) : Node.This :=
  {| Node.settings := settings;
     Node.getCredentials := inr (Some credentials);
     Node.getNodeParameter := p |}.

Definition continuing : option Node.Settings :=
  Some {| Node.continueOnFail := Some true; Node.ssl := None;
          Node.connectionTimeout := None |}.

(** Settings that say nothing about [continueOnFail]. *)
Definition silent : option Node.Settings :=
  Some {| Node.continueOnFail := None; Node.ssl := None;
          Node.connectionTimeout := Some 3000%Z |}.

Definition no_input : Node.InputData := {| Node.main := None |}.

Definition three_items : Node.InputData :=
  {| Node.main := Some [[Node.json [("n", JNum 1%Z)];
                         Node.json [("n", JNum 2%Z)];
                         Node.json [("n", JNum 3%Z)]]] |}.

(** An update of one column, with its WHERE clause. *)
Definition deactivate : Node.This :=
  node None (parameters "update" "id = $2" "123"
                        (fun _ => JObj [("status", JStr "inactive")]) true 50%Z).

(** An update and a delete that forgot the WHERE clause. *)
Definition update_everything : Node.This :=
  node None (parameters "update" "" ""
                        (fun _ => JObj [("status", JStr "inactive")]) true 50%Z).

Definition delete_everything : Node.This :=
  node None (parameters "delete" "" "" (fun _ => JObj []) true 50%Z).

(** An insert and an update whose only column is blank. *)
Definition insert_blank : Node.This :=
  node None (parameters "insert" "" ""
                        (fun _ => JObj [("name", JStr ""); ("email", JNull)]) true 50%Z).

Definition update_blank : Node.This :=
  node None (parameters "update" "id = $1" "7"
                        (fun _ => JObj [("name", JStr "")]) true 50%Z).

Definition update_blank_everywhere : Node.This :=
  node None (parameters "update" "" "" (fun _ => JObj []) true 50%Z).

(** Selects with a limit. *)
Definition select_limit (limit : Z) : Node.This :=
  node None (parameters "select" "" "" (fun _ => JObj []) false limit).

(** An insert whose second item maps no column. *)
Definition second_is_blank (i : nat) : JsVal :=
  if (i =? 1)%nat then JObj [] else JObj [("name", JStr "Jane")].

Definition insert_three (settings : option Node.Settings) : Node.This :=
  node settings (parameters "insert" "" "" second_is_blank true 50%Z).

(** What an insert pushes when the server answers with [one_row]. *)
Definition inserted : JsVal :=
  Node.json [("inserted", JObj [("id", JNum 1%Z)]); ("rowCount", JNum 1%Z)].

Definition insert_jane : Query :=
  ("INSERT INTO users (" ++ Cred.dquote ++ "name" ++ Cred.dquote
   ++ ") VALUES ($1) RETURNING *",
   [JStr "Jane"]).

Definition no_data_for_insert : JsError :=
  Error "No data provided for insert. Please map at least one column.".

(** The world after the pool of [this] was created and one insert sent. *)
Definition after_first_insert (this : Node.This) : World :=
  {| server := server answering;
     pools := [Node.execute_pool_config this credentials];
     sent := [insert_jane];
     ended := 0 |}.

(** A fixed query, which needs no input. *)
Definition fixed_query : Node.This :=
  node None (parameters "executeQuery" "" "" (fun _ => JObj []) true 50%Z).

(** A server whose answer carries a version. *)
Definition versioned : World :=
  {| server := fun _ _ =>
       inr {| rows := [JObj [("current_time", JStr "2024-01-01 00:00:00+00");
                             ("version", JStr "PostgreSQL 15.3 on x86_64-pc-linux-gnu")]];
              rowCount := JNum 1%Z; command := JStr "SELECT"; fields := None |};
     pools := []; sent := []; ended := 0 |}.

(** A row of the catalog, about a column of [users]. *)
Definition email_row : JsVal :=
  JObj [("table_name", JStr "users");
        ("column_name", JStr "email");
        ("data_type", JStr "character varying");
        ("is_nullable", JStr "YES");
        ("column_default", JNull);
        ("character_maximum_length", JNum 255%Z);
        ("numeric_precision", JNull);
        ("numeric_scale", JNull)].

Definition catalog_answer : QueryResult :=
  {| rows := [email_row]; rowCount := JNum 1%Z; command := JStr "SELECT"; fields := None |}.

(** A server that answers with that row. *)
Definition catalog : World :=
  {| server := fun _ _ => inr catalog_answer; pools := []; sent := []; ended := 0 |}.

(** Credentials without a host, and hosts built on them. *)
Definition hostless : Cred.Data :=
  {| Cred.host := ""; Cred.port := None; Cred.database := "app";
     Cred.user := "postgres"; Cred.password := "secret"; Cred.ssl := None |}.

Definition without_credentials (p : Node.Parameters) : Node.This :=
  {| Node.settings := None; Node.getCredentials := inr None; Node.getNodeParameter := p |}.

(** A host whose settings turn SSL off while the credentials ask for it. *)
Definition ssl_credentials : Cred.Data :=
  {| Cred.host := "db.example.com"; Cred.port := Some 0%Z; Cred.database := "app";
     Cred.user := "postgres"; Cred.password := "secret"; Cred.ssl := Some true |}.

Definition ssl_off : Node.This :=
  {| Node.settings := Some {| Node.continueOnFail := None; Node.ssl := Some false;
                              Node.connectionTimeout := None |};
     Node.getCredentials := inr (Some ssl_credentials);
     Node.getNodeParameter :=
       parameters "executeQuery" "" "" (fun _ => JObj []) true 50%Z |}.

(** An operation the node does not have. *)
Definition upsert (settings : option Node.Settings) : Node.This :=
  node settings (parameters "upsert" "" "" (fun _ => JObj []) true 50%Z).

(** An insert whose column map is text that is not JSON. *)
Definition insert_garbage : Node.This :=
  node None (parameters "insert" "" "" (fun _ => JStr "{name:") true 50%Z).

(** An insert of two columns. *)
Definition insert_two : Node.This :=
  node None (parameters "insert" "" ""
                        (fun _ => JObj [("name", JStr "Jane"); ("email", JStr "jane@x.com")])
                        true 50%Z).

(** A select and a delete. *)
Definition select_all : Node.This :=
  node None (parameters "select" "" "1, 2" (fun _ => JObj []) true 10%Z).

Definition delete_one : Node.This :=
  node None (parameters "delete" "id = $1" " 7 " (fun _ => JObj []) true 50%Z).

(** A node that has no table selected yet. *)
Definition no_table : Node.This :=
  {| Node.settings := None; Node.getCredentials := inr (Some credentials);
     Node.getNodeParameter :=
       {| Node.operation := "select"; Node.query := ""; Node.queryParams := "";
          Node.table := ""; Node.columnsMap := fun _ => JObj [];
          Node.returnAll := true; Node.limit := 50%Z;
          Node.where_ := ""; Node.whereParams := "";
          Node.columns := "*"; Node.orderBy := ""; Node.returnFields := "*" |} |}.

End Fixtures.

(** * Properties *)

Import Js.
Import Pg.
Import PostgresNode.

(** ** What the statements of the properties observe *)

Section Observations.
Context {num : JsNumber}.

(** What [new Pool] and [pool.end()] leave behind. *)
Definition opened (config : PoolConfig) (w : World) : World := snd (new_Pool config w).
Definition closed (w : World) : World := snd (pool_end w).

(** A world later in the same run: same server, same pools, no further
    [pool.end()], and only more queries sent. *)
Definition later (w w' : World) : Prop :=
  server w' = server w /\ pools w' = pools w /\ ended w' = ended w
  /\ exists qs, sent w' = (sent w ++ qs)%list.

(** The SELECT statement without its LIMIT clause, and its parameters. *)
Definition select_unlimited (this : This) : string :=
  let p := getNodeParameter this in
  let queryText := "SELECT " ++ str_or (columns p) "*" ++ " FROM " ++ table p in
  let queryText :=
    if str_truthy (where_ p) then queryText ++ " WHERE " ++ where_ p else queryText in
  if str_truthy (orderBy p) then queryText ++ " ORDER BY " ++ orderBy p else queryText.

Definition select_params (this : This) : list JsVal :=
  let p := getNodeParameter this in
  if str_truthy (where_ p) then
    if str_truthy (whereParams p) then split_params (whereParams p) else []
  else [].

(** What the select case pushes for an answer of the server. *)
Definition select_record (result : QueryResult) : JsVal :=
  json [("rows", JArr (rows result)); ("rowCount", rowCount result)].

(** The UPDATE statement for a filtered column map. *)
Definition update_text (this : This) (filteredData : list (string * JsVal)) : string :=
  let p := getNodeParameter this in
  "UPDATE " ++ table p ++ " SET "
  ++ join ", " (mapi (fun col i => dquote ++ col ++ dquote ++ " = $" ++ nat_toString (i + 1))
                     (Object_keys filteredData))
  ++ " WHERE " ++ where_ p ++ " RETURNING " ++ str_or (returnFields p) "*".

(** [whereParamsStr.split(",").map((p) => p.trim())], guarded by
    [if (whereParamsStr)]. *)
Definition where_params (this : This) : list JsVal :=
  let p := getNodeParameter this in
  if str_truthy (whereParams p) then split_params (whereParams p) else [].

(** The same host with [continueOnFail] spelled out as [false]. *)
Definition fail_fast (this : This) : This :=
  {| settings := Some {| continueOnFail := Some false;
                         ssl := setting this ssl;
                         connectionTimeout := setting this connectionTimeout |};
     getCredentials := getCredentials this;
     getNodeParameter := getNodeParameter this |}.

(** The one entry [getTables] returns when the catalog query fails. *)
Definition tables_error_option (error : JsError) : JsVal :=
  option_item (JStr "Error loading tables - check credentials") (JStr "")
              (JStr (err_message error)).

(** An error with a given driver code. *)
Definition with_code (error : JsError) (code : option string) : JsError :=
  {| err_name := err_name error; err_message := err_message error; err_code := code |}.

(** The driver codes [test] tells apart. *)
Definition driver_codes : list string :=
  ["ECONNREFUSED"; "ENOTFOUND"; "ETIMEDOUT"; "28P01"; "3D000"; "28000"; "08001"].

(** The codes [test] knows, and [None] for every other error. *)
Definition known_codes : list (option string) :=
  [Some "ECONNREFUSED"; Some "ENOTFOUND"; Some "ETIMEDOUT"; Some "28P01";
   Some "3D000"; Some "28000"; Some "08001"; None].

(** How often a code unit occurs in a string. *)
Fixpoint occurrences (c : ascii) (s : string) : nat :=
  match s with
  | EmptyString => 0
  | String c' rest => (if Ascii.eqb c' c then 1 else 0) + occurrences c rest
  end.

(** Whether a string starts, or ends, with white space. *)
Definition leading_space (s : string) : bool :=
  match s with
  | EmptyString => false
  | String c _ => is_space c
  end.

Fixpoint trailing_space (s : string) : bool :=
  match s with
  | EmptyString => false
  | String c EmptyString => is_space c
  | String _ rest => trailing_space rest
  end.

(** Whether every code unit is a digit or a dot. *)
Fixpoint version_text (s : string) : bool :=
  match s with
  | EmptyString => true
  | String c rest => Cred.is_digit_or_dot c && version_text rest
  end.

(** The world after one more query was sent. *)
Definition having_sent (w : World) (q : Query) : World :=
  {| server := server w; pools := pools w; sent := (sent w ++ [q])%list; ended := ended w |}.

(** The operations the [switch] knows. *)
Definition known_operation (operation : string) : bool :=
  String.eqb operation "executeQuery" || String.eqb operation "select"
  || String.eqb operation "insert" || String.eqb operation "update"
  || String.eqb operation "delete".

(** Whether a row of an answer is an object. *)
Definition is_object (v : JsVal) : bool :=
  match v with
  | JObj _ => true
  | _ => false
  end.

(** What [getTables] makes of a row. *)
Definition table_option (row : JsVal) : JsVal :=
  option_item (get row "table_name") (get row "table_name")
              (JStr ("Table: " ++ ToString (get row "table_name"))).

(** What [getColumnsForMap] makes of a row. *)
Definition column_option (row : JsVal) : JsVal :=
  JObj [("name", get row "column_name");
        ("value", get row "column_name");
        ("displayName", get row "column_name");
        ("description", JStr (join " " (typeInfo row)));
        ("type", JStr "expression");
        ("placeholder",
         JStr ("Enter value for " ++ ToString (get row "column_name") ++ "..."))].

(** A run of one operation either sent nothing and threw, or sent one
    query and left the outcome to the server. *)
Definition sent_at_most_once {A} (r : (JsError + A) * World) (w : World) : Prop :=
  (snd r = w /\ exists error, fst r = inl error)
  \/ (exists q,
        snd r = having_sent w q
        /\ (forall error, server w (sent w) q = inl error -> fst r = inl error)
        /\ (forall result, server w (sent w) q = inr result -> exists pushed, fst r = inr pushed)).

(** Whether a text cannot continue a version number: it is empty or
    starts with something else than a digit or a dot. *)
Definition ends_version (rest : string) : bool :=
  match rest with
  | EmptyString => true
  | String c _ => negb (Cred.is_digit_or_dot c)
  end.

(** Whether the credentials cannot be used: absent, without a host, or
    not to be had. *)
Definition unusable_credentials (this : This) : Prop :=
  getCredentials this = inr None
  \/ (exists credentials,
         getCredentials this = inr (Some credentials) /\ Cred.host credentials = "")
  \/ (exists error, getCredentials this = inl error).

End Observations.

Section Frames.
Context {num : JsNumber}.
Variable JSON_parse : string -> JsError + JsVal.
Variable this : This.

Lemma later_refl w : later w w.
Proof.
  repeat split. exists []. now rewrite app_nil_r.
Qed.

Lemma later_trans w1 w2 w3 : later w1 w2 -> later w2 w3 -> later w1 w3.
Proof.
  intros (Hs & Hp & He & qs & Hq) (Hs' & Hp' & He' & qs' & Hq').
  repeat split; try congruence.
  exists (qs ++ qs')%list. now rewrite Hq', Hq, app_assoc.
Qed.

(** A query followed by a pure continuation. *)
Lemma query_then_later {A} text params (k : QueryResult -> A) w :
  later w (snd (bind (pool_query text params) (fun result => ret (k result)) w)).
Proof.
  unfold bind, pool_query, ret.
  destruct (server w (sent w) (text, params)); cbn; repeat split;
    now exists [(text, params)].
Qed.

(** A step that cannot touch the world, then a continuation. *)
Lemma lift_then_later {A B} (r : JsError + A) (k : A -> M B) w :
  (forall a, later w (snd (k a w))) -> later w (snd (bind (lift r) k w)).
Proof.
  intros Hk. destruct r as [e | a]; cbn; [apply later_refl | apply Hk].
Qed.

Lemma run_operation_later operation i w :
  later w (snd (run_operation JSON_parse this operation i w)).
Proof.
  unfold run_operation.
  repeat match goal with
         | |- context [if String.eqb ?a ?b then _ else _] => destruct (String.eqb a b)
         end; try apply later_refl.
  - apply query_then_later.
  - apply query_then_later.
  - unfold insert_case.
    apply lift_then_later; intros data.
    apply lift_then_later; intros filteredData.
    destruct (_ =? _)%nat; [apply later_refl | apply query_then_later].
  - unfold update_case.
    destruct (negb _); try apply later_refl.
    apply lift_then_later; intros data.
    apply lift_then_later; intros filteredData.
    destruct (_ =? _)%nat; [apply later_refl | apply query_then_later].
  - unfold delete_case.
    destruct (negb _); [apply later_refl | apply query_then_later].
Qed.

End Frames.

Section Batch.
Context {num : JsNumber}.
Variable JSON_parse : string -> JsError + JsVal.
Variable this : This.

(** One loop turn, case by case: a success appends its record; a failure
    appends an error record under [continueOnFail] and is thrown again
    without it. *)
Lemma process_item_eq continueOnFail operation results i w :
  process_item JSON_parse this continueOnFail operation results i w =
  match run_operation JSON_parse this operation i w with
  | (inr pushed, w') => (inr (results ++ [pushed])%list, w')
  | (inl error, w') =>
      if continueOnFail then (inr (results ++ [error_item error])%list, w')
      else (inl error, w')
  end.
Proof.
  unfold process_item, try_catch, bind, ret, throw.
  destruct (run_operation _ _ _ _ _) as [[error | pushed] w']; [| reflexivity].
  now destruct continueOnFail.
Qed.

Lemma process_item_later continueOnFail operation results i w :
  later w (snd (process_item JSON_parse this continueOnFail operation results i w)).
Proof.
  rewrite process_item_eq.
  pose proof (run_operation_later JSON_parse this operation i w) as H.
  destruct (run_operation _ _ _ _ _) as [[error | pushed] w']; cbn in *; auto.
  now destruct continueOnFail.
Qed.

Lemma item_loop_later continueOnFail operation items :
  forall i results w,
    later w (snd (item_loop JSON_parse this continueOnFail operation items i results w)).
Proof.
  induction items as [| item rest IH]; intros i results w; cbn.
  - apply later_refl.
  - unfold bind.
    pose proof (process_item_later continueOnFail operation results i w) as H.
    destruct (process_item _ _ _ _ _ _ _) as [[error | results'] w']; cbn in *; auto.
    eapply later_trans; [exact H | apply IH].
Qed.

(** The loop over a concatenation runs the first part, then the second
    from where the first stopped, unless the first part threw. *)
Lemma item_loop_app continueOnFail operation items1 items2 :
  forall i results w,
    item_loop JSON_parse this continueOnFail operation (items1 ++ items2) i results w =
    match item_loop JSON_parse this continueOnFail operation items1 i results w with
    | (inr results', w') =>
        item_loop JSON_parse this continueOnFail operation items2
                  (i + length items1) results' w'
    | (inl error, w') => (inl error, w')
    end.
Proof.
  induction items1 as [| item rest IH]; intros i results w; cbn.
  - now rewrite Nat.add_0_r.
  - unfold bind.
    destruct (process_item _ _ _ _ _ _ _) as [[error | results'] w']; [reflexivity |].
    rewrite IH. now rewrite Nat.add_succ_r.
Qed.

(** Under [continueOnFail] the loop never throws and adds one record per
    item. *)
Lemma item_loop_continue operation items :
  forall i results w,
    exists added,
      fst (item_loop JSON_parse this true operation items i results w)
      = inr (results ++ added)%list
      /\ length added = length items.
Proof.
  induction items as [| item rest IH]; intros i results w; cbn.
  - exists []. now rewrite app_nil_r.
  - unfold bind. rewrite process_item_eq.
    destruct (run_operation _ _ _ _ _) as [[error | pushed] w'].
    + destruct (IH (S i) (results ++ [error_item error])%list w') as (added & Hr & Hl).
      exists (error_item error :: added). rewrite Hr, <- app_assoc. cbn. auto.
    + destruct (IH (S i) (results ++ [pushed])%list w') as (added & Hr & Hl).
      exists (pushed :: added). rewrite Hr, <- app_assoc. cbn. auto.
Qed.

Lemma read_credentials_ok credentials w :
  getCredentials this = inr (Some credentials) ->
  str_truthy (Cred.host credentials) = true ->
  read_credentials this w = (inr credentials, w).
Proof.
  intros Hc Hh. unfold read_credentials, try_catch, bind. rewrite Hc. cbn.
  now rewrite Hh.
Qed.

(** [execute], step by step: the credentials are read, and their error
    ends the run before a pool exists; otherwise the pool is created, the
    loop runs, the pool is ended whatever the loop did, and the loop's
    result or error is the result or error of the run. *)
Lemma execute_unfold inputData w :
  execute JSON_parse this inputData w =
  match read_credentials this w with
  | (inl error, w') => (inl error, w')
  | (inr credentials, w') =>
      match item_loop JSON_parse this (continueOnFail_setting this)
                      (operation (getNodeParameter this))
                      (items_to_process (input_items inputData)) 0 []
                      (opened (execute_pool_config this credentials) w') with
      | (inr results, w'') => (inr (output results), closed w'')
      | (inl error, w'') => (inl error, closed w'')
      end
  end.
Proof.
  unfold execute, bind at 1.
  destruct (read_credentials this w) as [[error | credentials] w']; [reflexivity |].
  unfold bind at 1. cbn [new_Pool]. unfold bind at 1, try_finally.
  fold (opened (execute_pool_config this credentials) w').
  destruct (item_loop _ _ _ _ _ _ _ _) as [[error | results] w'']; reflexivity.
Qed.

Lemma execute_eq credentials inputData w :
  getCredentials this = inr (Some credentials) ->
  str_truthy (Cred.host credentials) = true ->
  execute JSON_parse this inputData w =
  match item_loop JSON_parse this (continueOnFail_setting this)
                  (operation (getNodeParameter this))
                  (items_to_process (input_items inputData)) 0 []
                  (opened (execute_pool_config this credentials) w) with
  | (inr results, w') => (inr (output results), closed w')
  | (inl error, w') => (inl error, closed w')
  end.
Proof.
  intros Hc Hh. now rewrite execute_unfold, (read_credentials_ok _ _ Hc Hh).
Qed.

(** Fail-fast: when the items before one complete and that one throws,
    the loop stops there with its error, whatever comes after. *)
Lemma item_loop_abort operation before failing after results w1 error w2 :
  forall w,
    item_loop JSON_parse this false operation before 0 [] w = (inr results, w1) ->
    run_operation JSON_parse this operation (length before) w1 = (inl error, w2) ->
    item_loop JSON_parse this false operation (before ++ failing :: after) 0 [] w
    = (inl error, w2).
Proof.
  intros w Hbefore Hfail.
  rewrite item_loop_app, Hbefore. cbn.
  unfold bind. now rewrite process_item_eq, Hfail.
Qed.

End Batch.

(** ** The filtered column map *)

Section Filtering.
Context {num : JsNumber}.

(** When every entry is dropped, the copy loop leaves [filteredData] as it
    found it. *)
Lemma filter_entries_all_dropped entries :
  forall filteredData,
    filter (fun entry => kept (snd entry)) entries = [] ->
    filter_entries filteredData entries = filteredData.
Proof.
  induction entries as [| [key value] rest IH]; intros filteredData H; cbn in *.
  - reflexivity.
  - destruct (kept value); [discriminate | now apply IH].
Qed.

Lemma assign_fresh key value props :
  ~ In key (Object_keys props) -> assign key value props = (props ++ [(key, value)])%list.
Proof.
  induction props as [| [k v] rest IH]; cbn; intros Hnot.
  - reflexivity.
  - destruct (String.eqb_spec key k) as [-> | _].
    + exfalso. apply Hnot. now left.
    + f_equal. apply IH. intros Hin. apply Hnot. now right.
Qed.

(** For a map with distinct keys, none of them ["__proto__"], the copy loop
    computes the entries that are kept, in the order of the map. *)
Lemma filter_entries_filter entries :
  forall filteredData,
    NoDup (Object_keys filteredData ++ Object_keys entries) ->
    ~ In "__proto__" (Object_keys entries) ->
    filter_entries filteredData entries
    = (filteredData ++ filter (fun entry => kept (snd entry)) entries)%list.
Proof.
  induction entries as [| [key value] rest IH]; intros filteredData Hnd Hproto; cbn in *.
  - now rewrite app_nil_r.
  - assert (Hkey : String.eqb key "__proto__" = false).
    { apply String.eqb_neq. intros ->. apply Hproto. now left. }
    assert (Hfresh : ~ In key (Object_keys filteredData)).
    { intros Hin. apply NoDup_remove_2 in Hnd. apply Hnd.
      apply in_or_app. now left. }
    destruct (kept value).
    + unfold set_prop. rewrite Hkey, (assign_fresh _ _ _ Hfresh).
      rewrite IH.
      * now rewrite <- app_assoc.
      * unfold Object_keys in *. rewrite map_app, <- app_assoc. cbn. exact Hnd.
      * intros Hin. apply Hproto. now right.
    + apply IH.
      * now apply NoDup_remove_1 in Hnd.
      * intros Hin. apply Hproto. now right.
Qed.

End Filtering.

(** ** Statement building *)

Section Statements.
Context {num : JsNumber}.
Variable JSON_parse : string -> JsError + JsVal.

(** C1. An update and a delete whose [where] parameter is empty throw the
    WHERE-required error of their operation, and the world is left as it
    was: no query has been sent. *)
Theorem where_required :
  forall (this : This) (i : nat) (w : World),
    where_ (getNodeParameter this) = "" ->
    run_operation JSON_parse this "update" i w
    = (inl (Error "WHERE clause is required for UPDATE operation to prevent accidental updates"),
       w)
    /\ run_operation JSON_parse this "delete" i w
       = (inl (Error "WHERE clause is required for DELETE operation to prevent accidental deletion"),
          w).
Proof.
  intros this i w Hwhere. split.
  - change (run_operation JSON_parse this "update" i w)
      with (update_case JSON_parse this i w).
    unfold update_case. now rewrite Hwhere.
  - change (run_operation JSON_parse this "delete" i w) with (delete_case this w).
    unfold delete_case. now rewrite Hwhere.
Qed.

(** The two data-less failures share their path up to the message. *)
Lemma no_data_filtered (this : This) (i : nat) data entries :
  resolve_data JSON_parse (columnsMap (getNodeParameter this) i) = inr data ->
  Object_entries data = inr entries ->
  filter (fun entry => kept (snd entry)) entries = [] ->
  lift (resolve_data JSON_parse (columnsMap (getNodeParameter this) i)) = ret data
  /\ lift (filter_data data) = ret [].
Proof.
  intros Hdata Hentries Hempty. split.
  - now rewrite Hdata.
  - unfold filter_data. rewrite Hentries.
    now rewrite (filter_entries_all_dropped _ _ Hempty).
Qed.

(** C2, as amended.  When the column map of item [i] resolves to an
    object whose entries are all dropped (each value is [null],
    [undefined] or the empty string), an insert throws its no-data error,
    and so does an update that has a WHERE clause; an update without a
    WHERE clause throws the WHERE-required error first.  In all three
    cases the world is left as it was. *)
Theorem no_data_provided :
  forall (this : This) (i : nat) (w : World) data entries,
    resolve_data JSON_parse (columnsMap (getNodeParameter this) i) = inr data ->
    Object_entries data = inr entries ->
    filter (fun entry => kept (snd entry)) entries = [] ->
    run_operation JSON_parse this "insert" i w
    = (inl (Error "No data provided for insert. Please map at least one column."), w)
    /\ (where_ (getNodeParameter this) <> "" ->
        run_operation JSON_parse this "update" i w
        = (inl (Error "No data provided for update. Please map at least one column."), w))
    /\ (where_ (getNodeParameter this) = "" ->
        run_operation JSON_parse this "update" i w
        = (inl (Error "WHERE clause is required for UPDATE operation to prevent accidental updates"),
           w)).
Proof.
  intros this i w data entries Hdata Hentries Hempty.
  destruct (no_data_filtered this i data entries Hdata Hentries Hempty) as [Hd Hf].
  split; [| split].
  - change (run_operation JSON_parse this "insert" i w)
      with (insert_case JSON_parse this i w).
    unfold insert_case. rewrite Hd. unfold bind at 1, ret at 1.
    now rewrite Hf.
  - intros Hwhere.
    change (run_operation JSON_parse this "update" i w)
      with (update_case JSON_parse this i w).
    unfold update_case, str_truthy.
    apply String.eqb_neq in Hwhere. rewrite Hwhere. cbn [negb].
    rewrite Hd. unfold bind at 1, ret at 1.
    now rewrite Hf.
  - intros Hwhere.
    change (run_operation JSON_parse this "update" i w)
      with (update_case JSON_parse this i w).
    unfold update_case. now rewrite Hwhere.
Qed.

(** C3, as amended.  With [returnAll] false the limit is not checked: the
    statement is sent to the server whatever the limit is, the only error
    a select can end with is the server's, and the statement ends with
    [LIMIT n] exactly when the limit [n] is truthy (for a number: not
    zero and not NaN). *)
Theorem select_limit_unchecked :
  forall (this : This) (i : nat) (w : World),
    returnAll (getNodeParameter this) = false ->
    let n := limit (getNodeParameter this) in
    let queryText :=
      if num_truthy n then select_unlimited this ++ " LIMIT " ++ num_toString n
      else select_unlimited this in
    sent (snd (run_operation JSON_parse this "select" i w))
    = (sent w ++ [(queryText, select_params this)])%list
    /\ fst (run_operation JSON_parse this "select" i w)
       = match server w (sent w) (queryText, select_params this) with
         | inr result => inr (select_record result)
         | inl error => inl error
         end.
Proof.
  intros this i w Hall n queryText.
  change (run_operation JSON_parse this "select" i w) with (select_case this w).
  unfold select_case. rewrite Hall.
  fold (select_params this) (select_unlimited this).
  fold n. fold queryText.
  unfold bind, pool_query, ret. cbn.
  destruct (server w (sent w) (queryText, select_params this)); split; reflexivity.
Qed.

(** An update with a WHERE clause and a non-empty filtered map sends one
    statement, whose parameters are the values of the filtered map in its
    own order, then the WHERE parameters. *)
Lemma update_sends (this : This) (i : nat) (w : World) data filteredData :
  where_ (getNodeParameter this) <> "" ->
  resolve_data JSON_parse (columnsMap (getNodeParameter this) i) = inr data ->
  filter_data data = inr filteredData ->
  filteredData <> [] ->
  sent (snd (run_operation JSON_parse this "update" i w))
  = (sent w ++ [(update_text this filteredData,
                 Object_values filteredData ++ where_params this)])%list.
Proof.
  intros Hwhere Hdata Hfiltered Hsome.
  change (run_operation JSON_parse this "update" i w)
    with (update_case JSON_parse this i w).
  unfold update_case, str_truthy at 1.
  apply String.eqb_neq in Hwhere. rewrite Hwhere. cbn [negb].
  rewrite Hdata. cbn [lift]. unfold bind at 1, ret at 1.
  rewrite Hfiltered. cbn [lift]. unfold bind at 1, ret at 1.
  destruct filteredData as [| entry rest]; [contradiction |].
  cbn [Object_keys map length Nat.eqb].
  unfold bind, pool_query. cbn.
  now destruct (server w (sent w) _).
Qed.

End Statements.


(** ** Batch execution *)

Section Batches.
Context {num : JsNumber}.
Variable JSON_parse : string -> JsError + JsVal.


(** C5. Without [continueOnFail], when the items before one complete and
    that one throws, the run ends with the error that was thrown; the
    world is the one the failing item left, with the pool ended: nothing
    was sent for the items after it, and [pool.end()] was called once in
    the whole run. *)
Theorem fail_fast_aborts :
  forall (this : This) inputData credentials before failing after
         (w w1 w2 : World) results error,
    getCredentials this = inr (Some credentials) ->
    str_truthy (Cred.host credentials) = true ->
    items_to_process (input_items inputData) = (before ++ failing :: after)%list ->
    continueOnFail_setting this = false ->
    let operation := operation (getNodeParameter this) in
    item_loop JSON_parse this false operation before 0 []
              (opened (execute_pool_config this credentials) w) = (inr results, w1) ->
    run_operation JSON_parse this operation (length before) w1 = (inl error, w2) ->
    execute JSON_parse this inputData w = (inl error, closed w2)
    /\ sent (closed w2) = sent w2
    /\ ended (closed w2) = S (ended w).
Proof.
  intros this inputData credentials before failing after w w1 w2 results error
         Hc Hh Hitems Hfast operation Hbefore Hfail.
  split; [| split].
  - rewrite (execute_eq JSON_parse this credentials inputData w Hc Hh).
    rewrite Hitems, Hfast. fold operation.
    now rewrite (item_loop_abort JSON_parse this operation before failing after
                                 results w1 error w2 _ Hbefore Hfail).
  - reflexivity.
  - pose proof (item_loop_later JSON_parse this false operation before 0 []
                  (opened (execute_pool_config this credentials) w)) as L1.
    rewrite Hbefore in L1.
    pose proof (run_operation_later JSON_parse this operation (length before) w1) as L2.
    rewrite Hfail in L2. cbn [snd] in L1, L2.
    destruct L1 as (_ & _ & E1 & _). destruct L2 as (_ & _ & E2 & _).
    cbn. now rewrite E2, E1.
Qed.


Lemma item_loop_fail_fast (this : This) continueOnFail operation items :
  forall i results w,
    item_loop JSON_parse (fail_fast this) continueOnFail operation items i results w
    = item_loop JSON_parse this continueOnFail operation items i results w.
Proof.
  induction items as [| item rest IH]; intros i results w; cbn.
  - reflexivity.
  - unfold bind.
    change (process_item JSON_parse (fail_fast this) continueOnFail operation results i w)
      with (process_item JSON_parse this continueOnFail operation results i w).
    destruct (process_item _ _ _ _ _ _ _) as [[error | results'] w']; [reflexivity |].
    apply IH.
Qed.

(** C10. When the settings do not define [continueOnFail] (or there are
    no settings at all) the policy is [false]; the run is the run of the
    same host with [continueOnFail: false] written out; and the first
    item that throws ends the run with its error. *)
Theorem fail_fast_by_default :
  forall (this : This),
    setting this continueOnFail = None ->
    continueOnFail_setting this = false
    /\ (forall inputData (w : World),
          execute JSON_parse this inputData w
          = execute JSON_parse (fail_fast this) inputData w)
    /\ (forall inputData credentials before failing after (w w1 w2 : World) results error,
          getCredentials this = inr (Some credentials) ->
          str_truthy (Cred.host credentials) = true ->
          items_to_process (input_items inputData) = (before ++ failing :: after)%list ->
          item_loop JSON_parse this false (operation (getNodeParameter this)) before 0 []
                    (opened (execute_pool_config this credentials) w) = (inr results, w1) ->
          run_operation JSON_parse this (operation (getNodeParameter this))
                        (length before) w1 = (inl error, w2) ->
          execute JSON_parse this inputData w = (inl error, closed w2)).
Proof.
  intros this Hnone.
  assert (Hfast : continueOnFail_setting this = false).
  { unfold continueOnFail_setting. now rewrite Hnone. }
  split; [exact Hfast | split].
  - intros inputData w. rewrite !execute_unfold.
    change (read_credentials (fail_fast this) w) with (read_credentials this w).
    destruct (read_credentials this w) as [[error | credentials] w']; [reflexivity |].
    change (continueOnFail_setting (fail_fast this)) with false.
    change (execute_pool_config (fail_fast this) credentials)
      with (execute_pool_config this credentials).
    change (operation (getNodeParameter (fail_fast this)))
      with (operation (getNodeParameter this)).
    now rewrite Hfast, item_loop_fail_fast.
  - intros inputData credentials before failing after w w1 w2 results error
           Hc Hh Hitems Hbefore Hfail.
    rewrite (execute_eq JSON_parse this credentials inputData w Hc Hh).
    rewrite Hitems, Hfast.
    now rewrite (item_loop_abort JSON_parse this _ before failing after
                                 results w1 error w2 _ Hbefore Hfail).
Qed.

End Batches.

(** ** Schema introspection *)

Section Introspection.
Context {num : JsNumber}.

(** A handler that returns turns every error of the body into a result. *)
Lemma try_catch_returns {A} (m : M A) (handler : JsError -> M A) w :
  (forall error w', exists a, fst (handler error w') = inr a) ->
  exists a, fst (try_catch m handler w) = inr a.
Proof.
  intros Hh. unfold try_catch.
  destruct (m w) as [[error | a] w']; [apply Hh | now exists a].
Qed.

(** C8, as amended.  When the catalog query fails, [getTables] returns a
    sequence of one entry, the diagnostic: the name says that the tables
    could not be loaded, the value is empty and the description is the
    message of the error; the query was sent and the pool ended once.  On
    every path [getTables] returns and throws nothing. *)
Theorem getTables_reports_failure :
  forall (this : This) credentials (w : World) error,
    getCredentials this = inr (Some credentials) ->
    str_truthy (Cred.host credentials) = true ->
    server w (sent w) (tables_query, []) = inl error ->
    fst (getTables this w) = inr [tables_error_option error]
    /\ sent (snd (getTables this w)) = (sent w ++ [(tables_query, [])])%list
    /\ ended (snd (getTables this w)) = S (ended w)
    /\ forall (that : This) (w' : World), exists options, fst (getTables that w') = inr options.
Proof.
  intros this credentials w error Hc Hh Hfail.
  assert (Hrun : getTables this w
                 = (inr [tables_error_option error],
                    closed (snd (pool_query tables_query []
                                   (opened (loadOptions_pool_config this credentials) w))))).
  { unfold getTables. rewrite Hc, Hh. cbn [negb].
    unfold bind at 1. cbn [new_Pool]. unfold try_catch, bind at 1, pool_query at 1.
    cbn [server sent]. now rewrite Hfail. }
  rewrite Hrun. repeat split.
  intros that w'. unfold getTables.
  destruct (getCredentials that) as [e | [c |]]; try (eexists; reflexivity).
  destruct (negb _); [eexists; reflexivity |].
  unfold bind at 1. cbn [new_Pool].
  apply try_catch_returns. intros e w''. eexists. reflexivity.
Qed.

End Introspection.

(** ** The connectivity self-test *)

Section SelfTest.
Context {num : JsNumber}.
Import PostgresDbCredentials.

Lemma test_complete data :
  str_truthy (host data) = true -> str_truthy (database data) = true ->
  str_truthy (user data) = true -> str_truthy (password data) = true ->
  test data =
  try_catch
    (bind (new_Pool (test_pool_config data)) (fun _ =>
       try_catch
         (bind (pool_query test_query []) (fun result =>
            bind pool_end (fun _ =>
              match rows result with
              | row :: _ =>
                  bind (read row "version") (fun version =>
                    bind (version_match version) (fun versionMatch =>
                      ret {| success := true;
                             message := "Connected successfully to PostgreSQL "
                                        ++ match versionMatch with
                                           | Some v => v
                                           | None => "Unknown"
                                           end
                                        ++ " at " ++ host data ++ ":"
                                        ++ num_toString (port_or_default (port data))
                                        ++ "/" ++ database data |}))
              | [] =>
                  bind pool_end (fun _ =>
                    ret {| success := true; message := "Connection successful" |})
              end)))
         (fun queryError => bind pool_end (fun _ => throw queryError))))
    (fun error => ret (diagnose data error)).
Proof.
  intros Hh Hd Hu Hp. unfold test. now rewrite Hh, Hd, Hu, Hp.
Qed.

(** Runs [test] through the answer of the server, the rows of the answer
    and the [version] of the first row. *)
Ltac run_test w :=
  unfold try_catch, bind, new_Pool, pool_query, pool_end, ret, throw;
  cbn [server sent pools ended fst snd];
  destruct (server w (sent w) (test_query, [])) as [error | result];
  [ cbn
  | destruct (rows result) as [| row rest];
    [ cbn
    | unfold read, version_match, ret, throw;
      destruct row as [| | | | | | props]; cbn;
      try (destruct (lookup "version" props); cbn) ] ].

(** C9, as amended.  With the four required fields filled in, the
    self-test creates one pool, capped at one connection and with a
    connection timeout of 5000 ms, and sends one query, whose text is
    [SELECT NOW() as current_time, version() as version]; it always
    returns a result and throws nothing; when the query fails the result
    is the diagnosis of the error.  An error with one of the seven driver
    codes gets the message of that code, and every other error, with
    another code or with none, gets the generic message with the message
    of the error; the eight messages are pairwise different. *)
Theorem self_test_diagnoses :
  forall (data : Data) (w : World),
    str_truthy (host data) = true -> str_truthy (database data) = true ->
    str_truthy (user data) = true -> str_truthy (password data) = true ->
    (exists config,
        pools (snd (test data w)) = (pools w ++ [config])%list
        /\ max config = num_of_Z 1
        /\ connectionTimeoutMillis config = num_of_Z 5000)
    /\ sent (snd (test data w))
       = (sent w ++ [("SELECT NOW() as current_time, version() as version", [])])%list
    /\ (exists result, fst (test data w) = inr result)
    /\ (forall error,
          server w (sent w) (test_query, []) = inl error ->
          fst (test data w) = inr (diagnose data error))
    /\ (forall error,
          let port := num_toString (port_or_default (port data)) in
          (err_code error = Some "ECONNREFUSED" ->
           diagnose data error
           = failure ("Cannot connect to database server at " ++ host data ++ ":" ++ port
                      ++ ". Connection refused."))
          /\ (err_code error = Some "ENOTFOUND" ->
              diagnose data error
              = failure ("Cannot resolve host: " ++ host data
                         ++ ". Please check the hostname."))
          /\ (err_code error = Some "ETIMEDOUT" ->
              diagnose data error
              = failure ("Connection timeout to " ++ host data ++ ":" ++ port
                         ++ ". Please check firewall and network settings."))
          /\ (err_code error = Some "28P01" ->
              diagnose data error
              = failure "Authentication failed. Invalid username or password.")
          /\ (err_code error = Some "3D000" ->
              diagnose data error
              = failure ("Database " ++ dquote ++ database data ++ dquote
                         ++ " does not exist."))
          /\ (err_code error = Some "28000" ->
              diagnose data error
              = failure "Authorization failed. User does not have access to this database.")
          /\ (err_code error = Some "08001" ->
              diagnose data error
              = failure "Unable to establish connection. Please check server settings.")
          /\ ((forall code, err_code error = Some code -> ~ In code driver_codes) ->
              diagnose data error
              = failure ("Connection failed: " ++ str_or (err_message error) "Unknown error"))
          /\ NoDup (map (fun code => message (diagnose data (with_code error code)))
                        known_codes)).
Proof.
  intros data w Hh Hd Hu Hp.
  rewrite (test_complete data Hh Hd Hu Hp).
  split; [| split; [| split; [| split]]].
  - exists (test_pool_config data). repeat split. run_test w; reflexivity.
  - run_test w; reflexivity.
  - run_test w; eexists; reflexivity.
  - intros error Hfail.
    unfold try_catch, bind, new_Pool, pool_query. cbn [server sent]. now rewrite Hfail.
  - intros error port. subst port.
    repeat (split; [intros Hcode; unfold diagnose, code_is; now rewrite Hcode |]).
    split.
    { intros Hother. unfold diagnose, code_is.
      destruct (err_code error) as [code |]; [| reflexivity].
      specialize (Hother code eq_refl). unfold driver_codes in Hother.
      repeat match goal with
             | |- context [String.eqb code ?c] =>
                 destruct (String.eqb_spec code c) as [-> | _];
                 [exfalso; apply Hother; cbn; tauto |]
             end.
      reflexivity. }
    unfold known_codes. cbn [map]. unfold diagnose, code_is, with_code.
    cbn [err_code err_message String.eqb Ascii.eqb Bool.eqb message failure].
    repeat (constructor; [cbn; intuition discriminate |]).
    constructor.
Qed.

End SelfTest.

(** ** The properties on concrete runs *)

(** C1 on an update and a delete that forgot their WHERE clause. *)
Lemma where_required_witness :
  where_ (getNodeParameter Fixtures.update_everything) = ""
  /\ run_operation Fixtures.parse Fixtures.update_everything "update" 0 Fixtures.answering
     = (inl (Error "WHERE clause is required for UPDATE operation to prevent accidental updates"),
        Fixtures.answering)
  /\ run_operation Fixtures.parse Fixtures.update_everything "delete" 0 Fixtures.answering
     = (inl (Error "WHERE clause is required for DELETE operation to prevent accidental deletion"),
        Fixtures.answering).
Proof.
  split; [reflexivity |].
  apply (where_required Fixtures.parse Fixtures.update_everything 0 Fixtures.answering).
  reflexivity.
Defined.

(** C2 as the specification states it fails on an update that has neither
    data nor a WHERE clause: its column map is empty, and the error is
    not the no-data error but the WHERE-required one. *)
Lemma no_data_counterexample :
  resolve_data Fixtures.parse
               (columnsMap (getNodeParameter Fixtures.update_blank_everywhere) 0)
  = inr (JObj [])
  /\ Object_entries (JObj []) = inr []
  /\ fst (run_operation Fixtures.parse Fixtures.update_blank_everywhere "update" 0
                        Fixtures.answering)
     = inl (Error "WHERE clause is required for UPDATE operation to prevent accidental updates")
  /\ fst (run_operation Fixtures.parse Fixtures.update_blank_everywhere "update" 0
                        Fixtures.answering)
     <> inl (Error "No data provided for update. Please map at least one column.").
Proof.
  repeat split. cbv. discriminate.
Qed.

(** C2, amended, on an insert whose two columns are blank. *)
Lemma no_data_provided_witness :
  resolve_data Fixtures.parse (columnsMap (getNodeParameter Fixtures.insert_blank) 0)
  = inr (JObj [("name", JStr ""); ("email", JNull)])
  /\ Object_entries (JObj [("name", JStr ""); ("email", JNull)])
     = inr [("name", JStr ""); ("email", JNull)]
  /\ filter (fun entry => kept (snd entry)) [("name", JStr ""); ("email", JNull)] = []
  /\ run_operation Fixtures.parse Fixtures.insert_blank "insert" 0 Fixtures.answering
     = (inl (Error "No data provided for insert. Please map at least one column."),
        Fixtures.answering).
Proof.
  split; [reflexivity | split; [reflexivity | split; [reflexivity |]]].
  apply (proj1 (no_data_provided Fixtures.parse Fixtures.insert_blank 0 Fixtures.answering
                                 (JObj [("name", JStr ""); ("email", JNull)])
                                 [("name", JStr ""); ("email", JNull)]
                                 eq_refl eq_refl eq_refl)).
Defined.

(** C3 as the specification states it fails on the limits 0 and -5: with
    [returnAll] false, a limit of 0 sends the statement without a LIMIT
    clause, a limit of -5 sends it with [LIMIT -5], and in both cases the
    run gets the answer of the server, not an error. *)
Lemma select_limit_counterexample :
  returnAll (getNodeParameter (Fixtures.select_limit 0)) = false
  /\ sent (snd (run_operation Fixtures.parse (Fixtures.select_limit 0) "select" 0
                              Fixtures.answering))
     = [("SELECT * FROM users", [])]
  /\ fst (run_operation Fixtures.parse (Fixtures.select_limit 0) "select" 0
                        Fixtures.answering)
     = inr (select_record Fixtures.one_row)
  /\ sent (snd (run_operation Fixtures.parse (Fixtures.select_limit (-5)) "select" 0
                              Fixtures.answering))
     = [("SELECT * FROM users LIMIT -5", [])]
  /\ fst (run_operation Fixtures.parse (Fixtures.select_limit (-5)) "select" 0
                        Fixtures.answering)
     = inr (select_record Fixtures.one_row).
Proof.
  repeat split.
Qed.

(** C3, amended, on a limit of 10. *)
Lemma select_limit_unchecked_witness :
  returnAll (getNodeParameter (Fixtures.select_limit 10)) = false
  /\ sent (snd (run_operation Fixtures.parse (Fixtures.select_limit 10) "select" 0
                              Fixtures.answering))
     = [("SELECT * FROM users LIMIT 10", [])].
Proof.
  split; [reflexivity |].
  apply (proj1 (select_limit_unchecked Fixtures.parse (Fixtures.select_limit 10) 0
                                       Fixtures.answering eq_refl)).
Defined.



(** C5 on the same three inserts without [continueOnFail]: the run ends
    with the error of the second item, one insert was sent, and the pool
    was ended once. *)
Lemma fail_fast_aborts_witness :
  continueOnFail_setting (Fixtures.insert_three None) = false
  /\ execute Fixtures.parse (Fixtures.insert_three None) Fixtures.three_items
             Fixtures.answering
     = (inl Fixtures.no_data_for_insert,
        {| server := server Fixtures.answering;
           pools := [execute_pool_config (Fixtures.insert_three None) Fixtures.credentials];
           sent := [Fixtures.insert_jane];
           ended := 1 |}).
Proof.
  split; [reflexivity |].
  refine (proj1 (fail_fast_aborts
                   Fixtures.parse (Fixtures.insert_three None) Fixtures.three_items
                   Fixtures.credentials [json [("n", JNum 1%Z)]] (json [("n", JNum 2%Z)])
                   [json [("n", JNum 3%Z)]] Fixtures.answering
                   (Fixtures.after_first_insert (Fixtures.insert_three None))
                   (Fixtures.after_first_insert (Fixtures.insert_three None))
                   [Fixtures.inserted] Fixtures.no_data_for_insert
                   eq_refl eq_refl eq_refl eq_refl _ _));
    reflexivity.
Defined.



(** C8 as the specification states it fails when the server cannot be
    reached: what [getTables] returns is not the empty sequence but a
    sequence of one entry. *)
Lemma getTables_counterexample :
  server Fixtures.unreachable (sent Fixtures.unreachable) (tables_query, [])
  = inl Fixtures.refused
  /\ fst (getTables Fixtures.fixed_query Fixtures.unreachable)
     = inr [option_item (JStr "Error loading tables - check credentials") (JStr "")
                        (JStr "connect ECONNREFUSED 127.0.0.1:5432")]
  /\ fst (getTables Fixtures.fixed_query Fixtures.unreachable) <> inr [].
Proof.
  split; [reflexivity | split; [reflexivity |]].
  cbv. discriminate.
Qed.

(** C8, amended, on the same unreachable server. *)
Lemma getTables_reports_failure_witness :
  server Fixtures.unreachable (sent Fixtures.unreachable) (tables_query, [])
  = inl Fixtures.refused
  /\ fst (getTables Fixtures.fixed_query Fixtures.unreachable)
     = inr [tables_error_option Fixtures.refused].
Proof.
  split; [reflexivity |].
  exact (proj1 (getTables_reports_failure Fixtures.fixed_query Fixtures.credentials
                  Fixtures.unreachable Fixtures.refused eq_refl eq_refl eq_refl)).
Defined.

(** C9 as the specification states it fails on the text of the query:
    what the self-test sends is not [SELECT NOW(), version()] but the
    statement with its two column aliases. *)
Lemma self_test_counterexample :
  sent (snd (PostgresDbCredentials.test Fixtures.credentials Fixtures.unreachable))
  = [("SELECT NOW() as current_time, version() as version", [])]
  /\ sent (snd (PostgresDbCredentials.test Fixtures.credentials Fixtures.unreachable))
     <> [("SELECT NOW(), version()", [])].
Proof.
  split; [reflexivity |]. cbv. discriminate.
Qed.

(** C9, amended, on a server that refuses the connection. *)
Lemma self_test_diagnoses_witness :
  str_truthy (PostgresDbCredentials.host Fixtures.credentials) = true
  /\ fst (PostgresDbCredentials.test Fixtures.credentials Fixtures.unreachable)
     = inr (PostgresDbCredentials.failure
              "Cannot connect to database server at db.example.com:5432. Connection refused.").
Proof.
  split; [reflexivity |].
  exact (proj1 (proj2 (proj2 (proj2
           (self_test_diagnoses Fixtures.credentials Fixtures.unreachable
              eq_refl eq_refl eq_refl eq_refl))))
           Fixtures.refused eq_refl).
Defined.

(** C10 on settings that give a timeout and nothing else. *)
Lemma fail_fast_by_default_witness :
  setting (Fixtures.insert_three Fixtures.silent) continueOnFail = None
  /\ continueOnFail_setting (Fixtures.insert_three Fixtures.silent) = false
  /\ fst (execute Fixtures.parse (Fixtures.insert_three Fixtures.silent)
                  Fixtures.three_items Fixtures.answering)
     = inl Fixtures.no_data_for_insert.
Proof.
  split; [reflexivity | split].
  - exact (proj1 (fail_fast_by_default Fixtures.parse
                    (Fixtures.insert_three Fixtures.silent) eq_refl)).
  - refine (f_equal fst
              (proj2 (proj2 (fail_fast_by_default Fixtures.parse
                               (Fixtures.insert_three Fixtures.silent) eq_refl))
                     Fixtures.three_items Fixtures.credentials
                     [json [("n", JNum 1%Z)]] (json [("n", JNum 2%Z)])
                     [json [("n", JNum 3%Z)]] Fixtures.answering
                     (Fixtures.after_first_insert (Fixtures.insert_three Fixtures.silent))
                     (Fixtures.after_first_insert (Fixtures.insert_three Fixtures.silent))
                     [Fixtures.inserted] Fixtures.no_data_for_insert
                     eq_refl eq_refl eq_refl _ _));
      reflexivity.
Defined.

(** * Further properties of the code *)

(** ** Comma-separated parameters *)

Section Text.
Context {num : JsNumber}.

Lemma split_not_nil sep s : split sep s <> [].
Proof.
  destruct s as [| c rest]; cbn; [discriminate |].
  destruct (Ascii.eqb c sep); [discriminate |].
  destruct (split sep rest); discriminate.
Qed.

Lemma join_push c piece pieces :
  join "," (String c piece :: pieces) = String c (join "," (piece :: pieces)).
Proof.
  destruct pieces; reflexivity.
Qed.

(** Splitting at commas loses nothing: joining the pieces with commas
    gives the text back. *)
Theorem split_join : forall s, join "," (split "," s) = s.
Proof.
  induction s as [| c rest IH]; [reflexivity |].
  cbn [split]. destruct (Ascii.eqb_spec c ",") as [-> | Hc].
  - destruct (split "," rest) as [| piece pieces] eqn:E.
    + now apply split_not_nil in E.
    + change (join "," ("" :: piece :: pieces))
        with ("," ++ join "," (piece :: pieces)).
      now rewrite IH.
  - destruct (split "," rest) as [| piece pieces] eqn:E.
    + now apply split_not_nil in E.
    + now rewrite join_push, IH.
Qed.

Lemma split_length s : length (split "," s) = S (occurrences "," s).
Proof.
  induction s as [| c rest IH]; [reflexivity |].
  cbn [split occurrences]. destruct (Ascii.eqb c ","); cbn [length Nat.add].
  - now rewrite IH.
  - destruct (split "," rest) as [| piece pieces] eqn:E.
    + now apply split_not_nil in E.
    + exact IH.
Qed.

Lemma split_pieces_free s : Forall (fun piece => occurrences "," piece = 0) (split "," s).
Proof.
  induction s as [| c rest IH]; [repeat constructor |].
  cbn [split]. destruct (Ascii.eqb c ",") eqn:Hc.
  - constructor; [reflexivity | exact IH].
  - destruct (split "," rest) as [| piece pieces] eqn:E.
    + now apply split_not_nil in E.
    + inversion IH as [| ? ? Hpiece Hpieces]; subst.
      constructor; [| exact Hpieces]. cbn. now rewrite Hc.
Qed.

Lemma trimStart_occurrences c s : occurrences c (trimStart s) <= occurrences c s.
Proof.
  induction s as [| c' rest IH]; cbn; [lia |].
  destruct (is_space c'); cbn; destruct (Ascii.eqb c' c); lia.
Qed.

Lemma trimEnd_occurrences c s : occurrences c (trimEnd s) <= occurrences c s.
Proof.
  induction s as [| c' rest IH]; cbn [trimEnd occurrences]; [lia |].
  destruct (trimEnd rest) as [| k kept].
  - destruct (is_space c'); cbn in *; destruct (Ascii.eqb c' c); lia.
  - cbn [occurrences] in *. destruct (Ascii.eqb c' c); lia.
Qed.

Lemma trimStart_leading s : leading_space (trimStart s) = false.
Proof.
  induction s as [| c rest IH]; [reflexivity |].
  cbn [trimStart]. destruct (is_space c) eqn:Hc; [exact IH | cbn; exact Hc].
Qed.

Lemma trimEnd_leading s : leading_space s = false -> leading_space (trimEnd s) = false.
Proof.
  destruct s as [| c rest]; [reflexivity |]. cbn [leading_space trimEnd]. intros Hc.
  destruct (trimEnd rest); [rewrite Hc |]; exact Hc.
Qed.

Lemma trimEnd_trailing s : trailing_space (trimEnd s) = false.
Proof.
  induction s as [| c rest IH]; [reflexivity |].
  cbn [trimEnd]. destruct (trimEnd rest) as [| k kept].
  - destruct (is_space c) eqn:Hc; [reflexivity | cbn; exact Hc].
  - exact IH.
Qed.

(** X1. The parameters made of a comma-separated text: one more than there
    are commas, so never none; each is a string without a comma and
    without white space at either end. *)
Theorem split_params_shape :
  forall s,
    length (split_params s) = S (occurrences "," s)
    /\ Forall (fun v => exists p, v = JStr p
                                  /\ occurrences "," p = 0
                                  /\ leading_space p = false
                                  /\ trailing_space p = false)
              (split_params s).
Proof.
  intros s. unfold split_params. split.
  - now rewrite length_map, split_length.
  - apply Forall_map. eapply Forall_impl; [| apply split_pieces_free].
    intros piece Hfree. cbn beta in Hfree. exists (trim piece). split; [reflexivity |]. unfold trim.
    split; [| split].
    + pose proof (trimEnd_occurrences "," (trimStart piece)).
      pose proof (trimStart_occurrences "," piece). lia.
    + apply trimEnd_leading, trimStart_leading.
    + apply trimEnd_trailing.
Qed.

End Text.

(** ** One item, one statement at most *)

Section Items.
Context {num : JsNumber}.
Variable JSON_parse : string -> JsError + JsVal.
Variable this : This.

Lemma throw_sent_nothing {A} (error : JsError) w :
  sent_at_most_once (@throw num A error w) w.
Proof.
  left. split; [reflexivity | now exists error].
Qed.

Lemma query_then_ret {A} text params (k : QueryResult -> A) w :
  bind (pool_query text params) (fun result => ret (k result)) w
  = (match server w (sent w) (text, params) with
     | inl error => inl error
     | inr result => inr (k result)
     end,
     having_sent w (text, params)).
Proof.
  unfold bind, pool_query, ret, having_sent.
  now destruct (server w (sent w) (text, params)).
Qed.

Lemma query_sent_once {A} text params (k : QueryResult -> A) w :
  sent_at_most_once (bind (pool_query text params) (fun result => ret (k result)) w) w.
Proof.
  right. exists (text, params). rewrite query_then_ret. cbn [fst snd].
  split; [reflexivity | split].
  - intros error H. now rewrite H.
  - intros result H. rewrite H. now eexists.
Qed.

Lemma lift_then_sent {A B} (r : JsError + A) (k : A -> M B) w :
  (forall a, sent_at_most_once (k a w) w) -> sent_at_most_once (bind (lift r) k w) w.
Proof.
  intros Hk. destruct r as [e | a]; cbn; [apply throw_sent_nothing | apply Hk].
Qed.

(** X2. Whatever the operation and the item, running it sends at most one
    query: when none was sent the operation threw; when one was sent, the
    operation fails exactly when the server does. *)
Theorem operation_sends_at_most_once :
  forall (operation : string) (i : nat) (w : World),
    sent_at_most_once (run_operation JSON_parse this operation i w) w.
Proof.
  intros operation i w. unfold run_operation.
  repeat match goal with
         | |- context [if String.eqb ?a ?b then _ else _] => destruct (String.eqb a b)
         end; try apply throw_sent_nothing.
  - apply query_sent_once.
  - apply query_sent_once.
  - unfold insert_case.
    apply lift_then_sent; intros data.
    apply lift_then_sent; intros filteredData.
    destruct (_ =? _)%nat; [apply throw_sent_nothing | apply query_sent_once].
  - unfold update_case.
    destruct (negb _); try apply throw_sent_nothing.
    apply lift_then_sent; intros data.
    apply lift_then_sent; intros filteredData.
    destruct (_ =? _)%nat; [apply throw_sent_nothing | apply query_sent_once].
  - unfold delete_case.
    destruct (negb _); [apply throw_sent_nothing | apply query_sent_once].
Qed.

(** X3. A column map given as text that [JSON.parse] rejects: the insert, and
    the update that has a WHERE clause, throw the invalid-JSON error with
    the message of the parser, and nothing is sent. *)
Theorem invalid_json_rejected :
  forall (i : nat) (w : World) text error,
    columnsMap (getNodeParameter this) i = JStr text ->
    JSON_parse text = inl error ->
    run_operation JSON_parse this "insert" i w
    = (inl (Error ("Invalid JSON in columnsMap: " ++ err_message error)), w)
    /\ (where_ (getNodeParameter this) <> "" ->
        run_operation JSON_parse this "update" i w
        = (inl (Error ("Invalid JSON in columnsMap: " ++ err_message error)), w)).
Proof.
  intros i w text error Hmap Hparse. split.
  - change (run_operation JSON_parse this "insert" i w)
      with (insert_case JSON_parse this i w).
    unfold insert_case, resolve_data. now rewrite Hmap, Hparse.
  - intros Hwhere.
    change (run_operation JSON_parse this "update" i w)
      with (update_case JSON_parse this i w).
    unfold update_case, str_truthy at 1.
    apply String.eqb_neq in Hwhere. rewrite Hwhere. cbn [negb].
    unfold resolve_data. now rewrite Hmap, Hparse.
Qed.

Lemma mapi_from_seq {A B} (f : nat -> B) (xs : list A) :
  forall i, mapi_from (fun _ j => f (j + 1)) i xs = map f (seq (S i) (length xs)).
Proof.
  induction xs as [| x rest IH]; intros i; cbn; [reflexivity |].
  now rewrite IH, Nat.add_1_r.
Qed.

(** X4. An insert with a non-empty filtered map sends one statement: the
    columns are the keys of the filtered map, each in double quotes; the
    placeholders are [$1] to [$N], one per value; the parameters are the
    values, in the same order.  The record pushed holds the first row of
    the answer, or [undefined] when the answer has no row. *)
Theorem insert_statement :
  forall (i : nat) (w : World) data filteredData,
    resolve_data JSON_parse (columnsMap (getNodeParameter this) i) = inr data ->
    filter_data data = inr filteredData ->
    filteredData <> [] ->
    let queryText :=
      "INSERT INTO " ++ table (getNodeParameter this) ++ " ("
      ++ join ", " (map (fun col => dquote ++ col ++ dquote) (Object_keys filteredData))
      ++ ") VALUES ("
      ++ join ", " (map (fun k => "$" ++ nat_toString k) (seq 1 (length filteredData)))
      ++ ") RETURNING " ++ str_or (returnFields (getNodeParameter this)) "*" in
    snd (run_operation JSON_parse this "insert" i w)
    = having_sent w (queryText, Object_values filteredData)
    /\ length (Object_values filteredData) = length (seq 1 (length filteredData))
    /\ forall result,
         server w (sent w) (queryText, Object_values filteredData) = inr result ->
         fst (run_operation JSON_parse this "insert" i w)
         = inr (json [("inserted", nth 0 (rows result) JUndefined);
                      ("rowCount", rowCount result)]).
Proof.
  intros i w data filteredData Hdata Hfiltered Hsome queryText.
  assert (Hrun : run_operation JSON_parse this "insert" i w
                 = (match server w (sent w) (queryText, Object_values filteredData) with
                    | inl error => inl error
                    | inr result =>
                        inr (json [("inserted", nth 0 (rows result) JUndefined);
                                   ("rowCount", rowCount result)])
                    end,
                    having_sent w (queryText, Object_values filteredData))).
  { change (run_operation JSON_parse this "insert" i w)
      with (insert_case JSON_parse this i w).
    unfold insert_case.
    rewrite Hdata. cbn [lift]. unfold bind at 1, ret at 1.
    rewrite Hfiltered. cbn [lift]. unfold bind at 1, ret at 1.
    assert (Hkeys : (length (Object_keys filteredData) =? 0)%nat = false).
    { destruct filteredData; [contradiction | reflexivity]. }
    rewrite Hkeys.
    unfold mapi. rewrite (mapi_from_seq (fun k => "$" ++ nat_toString k)).
    unfold Object_values at 1. rewrite length_map.
    now rewrite query_then_ret. }
  rewrite Hrun. cbn [fst snd].
  split; [reflexivity | split].
  - unfold Object_values. now rewrite length_map, length_seq.
  - intros result H. now rewrite H.
Qed.

(** X5. A select with no WHERE clause, no ORDER BY and [returnAll] set sends
    the bare statement without parameters, whatever [whereParams] and
    [limit] hold. *)
Theorem bare_select :
  forall (i : nat) (w : World),
    where_ (getNodeParameter this) = "" ->
    orderBy (getNodeParameter this) = "" ->
    returnAll (getNodeParameter this) = true ->
    snd (run_operation JSON_parse this "select" i w)
    = having_sent w ("SELECT " ++ str_or (columns (getNodeParameter this)) "*"
                     ++ " FROM " ++ table (getNodeParameter this), []).
Proof.
  intros i w Hwhere Horder Hall.
  change (run_operation JSON_parse this "select" i w) with (select_case this w).
  unfold select_case. rewrite Hwhere, Horder, Hall. cbn [str_truthy String.eqb negb].
  now rewrite query_then_ret.
Qed.

(** X6. A delete with a WHERE clause sends the statement, without RETURNING,
    and its parameters; when the server answers, the record says
    [deleted: true] with the row count of the answer, whatever that
    count is. *)
Theorem delete_statement :
  forall (i : nat) (w : World),
    where_ (getNodeParameter this) <> "" ->
    let queryText :=
      "DELETE FROM " ++ table (getNodeParameter this)
      ++ " WHERE " ++ where_ (getNodeParameter this) in
    let queryParams :=
      if str_truthy (whereParams (getNodeParameter this))
      then split_params (whereParams (getNodeParameter this)) else [] in
    snd (run_operation JSON_parse this "delete" i w) = having_sent w (queryText, queryParams)
    /\ forall result,
         server w (sent w) (queryText, queryParams) = inr result ->
         fst (run_operation JSON_parse this "delete" i w)
         = inr (json [("deleted", JBool true); ("rowCount", rowCount result)]).
Proof.
  intros i w Hwhere queryText queryParams.
  assert (Hrun : run_operation JSON_parse this "delete" i w
                 = (match server w (sent w) (queryText, queryParams) with
                    | inl error => inl error
                    | inr result =>
                        inr (json [("deleted", JBool true); ("rowCount", rowCount result)])
                    end,
                    having_sent w (queryText, queryParams))).
  { change (run_operation JSON_parse this "delete" i w) with (delete_case this w).
    unfold delete_case, str_truthy at 1.
    apply String.eqb_neq in Hwhere. rewrite Hwhere. cbn [negb].
    now rewrite query_then_ret. }
  rewrite Hrun. cbn [fst snd].
  split; [reflexivity |]. intros result H. now rewrite H.
Qed.

End Items.

(** ** Whole runs *)

Section Runs.
Context {num : JsNumber}.
Variable JSON_parse : string -> JsError + JsVal.
Variable this : This.

(** X7. Without usable credentials the run ends before anything happens: no
    pool is created, no query is sent, and the error names the cause,
    whether the credentials are absent, have no host, or could not be
    fetched. *)
Theorem credentials_come_first :
  forall inputData (w : World),
    (getCredentials this = inr None ->
     execute JSON_parse this inputData w
     = (inl (Error ("Failed to get credentials: " ++ credentials_required)), w))
    /\ (forall credentials,
          getCredentials this = inr (Some credentials) ->
          Cred.host credentials = "" ->
          execute JSON_parse this inputData w
          = (inl (Error ("Failed to get credentials: " ++ credentials_required)), w))
    /\ (forall error,
          getCredentials this = inl error ->
          execute JSON_parse this inputData w
          = (inl (Error ("Failed to get credentials: " ++ err_message error)), w)).
Proof.
  intros inputData w. repeat split.
  - intros H. rewrite execute_unfold. unfold read_credentials, try_catch, bind.
    now rewrite H.
  - intros credentials H Hhost. rewrite execute_unfold.
    unfold read_credentials, try_catch, bind. rewrite H. cbn. now rewrite Hhost.
  - intros error H. rewrite execute_unfold. unfold read_credentials, try_catch, bind.
    now rewrite H.
Qed.

Lemma items_to_process_length items :
  length (items_to_process items) = Nat.max 1 (length items).
Proof.
  unfold items_to_process. destruct items as [| item rest]; [reflexivity |].
  cbn. now destruct (length rest).
Qed.

Lemma run_operation_bound operation i w :
  exists qs,
    sent (snd (run_operation JSON_parse this operation i w)) = (sent w ++ qs)%list
    /\ length qs <= 1.
Proof.
  destruct (operation_sends_at_most_once JSON_parse this operation i w)
    as [[Hw _] | (q & Hw & _)]; rewrite Hw.
  - exists []. rewrite app_nil_r. split; [reflexivity | cbn; lia].
  - exists [q]. split; [reflexivity | cbn; lia].
Qed.

Lemma item_loop_bound continueOnFail operation items :
  forall i results w,
    exists qs,
      sent (snd (item_loop JSON_parse this continueOnFail operation items i results w))
      = (sent w ++ qs)%list
      /\ length qs <= length items.
Proof.
  induction items as [| item rest IH]; intros i results w; cbn [item_loop].
  - exists []. rewrite app_nil_r. split; [reflexivity | cbn; lia].
  - unfold bind. rewrite process_item_eq.
    destruct (run_operation_bound operation i w) as (qs & Hqs & Hlen).
    destruct (run_operation JSON_parse this operation i w) as [[error | pushed] w'];
      cbn [snd] in Hqs.
    + destruct continueOnFail.
      * destruct (IH (S i) (results ++ [error_item error])%list w') as (qs' & Hqs' & Hlen').
        exists (qs ++ qs')%list. rewrite Hqs', Hqs, app_assoc, length_app.
        split; [reflexivity | cbn [length]; lia].
      * exists qs. split; [exact Hqs | cbn [length]; lia].
    + destruct (IH (S i) (results ++ [pushed])%list w') as (qs' & Hqs' & Hlen').
      exists (qs ++ qs')%list. rewrite Hqs', Hqs, app_assoc, length_app.
      split; [reflexivity | cbn [length]; lia].
Qed.

(** X8. Once the credentials are there, every run, whether it returns or
    throws, creates one pool, with the options of [execute], and calls
    [pool.end()] once; the queries of the run come after those sent
    before it, and there are at most as many as items were to be
    processed. *)
Theorem one_pool_per_run :
  forall inputData credentials (w : World),
    getCredentials this = inr (Some credentials) ->
    str_truthy (Cred.host credentials) = true ->
    let w' := snd (execute JSON_parse this inputData w) in
    pools w' = (pools w ++ [execute_pool_config this credentials])%list
    /\ ended w' = S (ended w)
    /\ exists qs,
         sent w' = (sent w ++ qs)%list
         /\ length qs <= Nat.max 1 (length (input_items inputData)).
Proof.
  intros inputData credentials w Hc Hh w'. subst w'.
  rewrite (execute_eq JSON_parse this credentials inputData w Hc Hh).
  set (w1 := opened (execute_pool_config this credentials) w).
  pose proof (item_loop_later JSON_parse this (continueOnFail_setting this)
                (operation (getNodeParameter this))
                (items_to_process (input_items inputData)) 0 [] w1) as L.
  destruct (item_loop_bound (continueOnFail_setting this)
              (operation (getNodeParameter this))
              (items_to_process (input_items inputData)) 0 [] w1) as (qs & Hqs & Hlen).
  rewrite items_to_process_length in Hlen.
  destruct (item_loop _ _ _ _ _ _ _ _) as [[error | results] w2];
    cbn [snd] in *; destruct L as (_ & Hp & He & _);
    (split; [cbn; now rewrite Hp | split; [cbn; now rewrite He |]]);
    exists qs; (split; [cbn; exact Hqs | exact Hlen]).
Qed.

Lemma item_loop_length continueOnFail operation items :
  forall i results w results' w',
    item_loop JSON_parse this continueOnFail operation items i results w = (inr results', w') ->
    length results' = length results + length items.
Proof.
  induction items as [| item rest IH]; intros i results w results' w'; cbn [item_loop].
  - intros H. inversion H. cbn. lia.
  - unfold bind. rewrite process_item_eq.
    destruct (run_operation JSON_parse this operation i w) as [[error | pushed] w1].
    + destruct continueOnFail; [| discriminate].
      intros H. apply IH in H. rewrite H, length_app. cbn. lia.
    + intros H. apply IH in H. rewrite H, length_app. cbn. lia.
Qed.

(** X9. A run that returns has pushed one record per item processed (one
    record when there was no item at all); and under [continueOnFail]
    every run with credentials returns. *)
Theorem one_record_per_item :
  forall inputData credentials (w : World),
    getCredentials this = inr (Some credentials) ->
    str_truthy (Cred.host credentials) = true ->
    (forall results,
        fst (execute JSON_parse this inputData w) = inr (output results) ->
        length results = Nat.max 1 (length (input_items inputData)))
    /\ (continueOnFail_setting this = true ->
        exists results, fst (execute JSON_parse this inputData w) = inr (output results)).
Proof.
  intros inputData credentials w Hc Hh.
  rewrite (execute_eq JSON_parse this credentials inputData w Hc Hh).
  split.
  - intros results.
    destruct (item_loop _ _ _ _ _ _ _ _) as [[error | results'] w2] eqn:E;
      cbn [fst]; [discriminate |].
    intros H. injection H as <-.
    apply item_loop_length in E. now rewrite E, items_to_process_length.
  - intros Hcontinue. rewrite Hcontinue.
    destruct (item_loop_continue JSON_parse this (operation (getNodeParameter this))
                (items_to_process (input_items inputData)) 0 []
                (opened (execute_pool_config this credentials) w)) as (added & Hr & _).
    destruct (item_loop _ _ _ _ _ _ _ _) as [[error | results'] w2];
      cbn [fst] in *; [discriminate |].
    now exists results'.
Qed.

Lemma item_loop_same_length continueOnFail operation items :
  forall items' i results w,
    length items = length items' ->
    item_loop JSON_parse this continueOnFail operation items i results w
    = item_loop JSON_parse this continueOnFail operation items' i results w.
Proof.
  induction items as [| item rest IH]; intros [| item' rest'] i results w Hlen;
    try discriminate; [reflexivity |].
  cbn [item_loop]. unfold bind.
  destruct (process_item _ _ _ _ _ _ _) as [[error | results'] w']; [reflexivity |].
  apply IH. now injection Hlen.
Qed.

(** X10. The run reads nothing from the items: two inputs with the same
    number of items give the same run. *)
Theorem items_only_count :
  forall inputData inputData' (w : World),
    length (input_items inputData) = length (input_items inputData') ->
    execute JSON_parse this inputData w = execute JSON_parse this inputData' w.
Proof.
  intros inputData inputData' w Hlen. rewrite !execute_unfold.
  destruct (read_credentials this w) as [[error | credentials] w1]; [reflexivity |].
  rewrite (item_loop_same_length _ _ (items_to_process (input_items inputData))
             (items_to_process (input_items inputData'))); [reflexivity |].
  now rewrite !items_to_process_length, Hlen.
Qed.

Lemma unknown_operation_throws operation i w :
  known_operation operation = false ->
  run_operation JSON_parse this operation i w
  = (inl (Error ("Unknown operation: " ++ operation)), w).
Proof.
  unfold known_operation, run_operation. intros H.
  repeat (apply orb_false_elim in H; destruct H as [H ?]).
  now repeat match goal with
             | E : String.eqb _ _ = false |- _ => rewrite E; clear E
             end.
Qed.

Lemma item_loop_unknown operation items :
  known_operation operation = false ->
  forall i results w,
    item_loop JSON_parse this true operation items i results w
    = (inr (results ++ repeat (error_item (Error ("Unknown operation: " ++ operation)))
                              (length items))%list, w).
Proof.
  intros Hunknown. induction items as [| item rest IH]; intros i results w; cbn.
  - now rewrite app_nil_r.
  - unfold bind. rewrite process_item_eq, (unknown_operation_throws _ _ _ Hunknown).
    rewrite IH, <- app_assoc. reflexivity.
Qed.


(** X12. The pool of a run takes [ssl] from the settings when they define it,
    even as [false], and from the credentials otherwise; the connection
    timeout is the one of the settings, or 2000 ms; the port is the one
    of the credentials, or 5432 when they have none or have 0. *)
Theorem settings_win :
  forall inputData credentials (w : World),
    getCredentials this = inr (Some credentials) ->
    str_truthy (Cred.host credentials) = true ->
    exists config,
      pools (snd (execute JSON_parse this inputData w)) = (pools w ++ [config])%list
      /\ (forall b, setting this ssl = Some b -> Pg.ssl config = b)
      /\ (setting this ssl = None ->
          Pg.ssl config = match Cred.ssl credentials with
                          | Some b => b
                          | None => false
                          end)
      /\ (forall ms, setting this connectionTimeout = Some ms ->
                     connectionTimeoutMillis config = ms)
      /\ (setting this connectionTimeout = None ->
          connectionTimeoutMillis config = num_of_Z 2000)
      /\ (Cred.port credentials = None -> Pg.port config = num_of_Z 5432)
      /\ (forall p, Cred.port credentials = Some p ->
                    Pg.port config = if num_truthy p then p else num_of_Z 5432)
      /\ max config = num_of_Z 10.
Proof.
  intros inputData credentials w Hc Hh.
  exists (execute_pool_config this credentials).
  split; [apply (one_pool_per_run inputData credentials w Hc Hh) |].
  unfold execute_pool_config. cbn [Pg.ssl connectionTimeoutMillis Pg.port max].
  repeat split.
  - intros b H. now rewrite H.
  - intros H. rewrite H. now destruct (Cred.ssl credentials).
  - intros ms H. now rewrite H.
  - intros H. now rewrite H.
  - intros H. now rewrite H.
  - intros p H. now rewrite H.
Qed.

End Runs.

(** ** The self-test, beyond its diagnoses *)

Section SelfTestRuns.
Context {num : JsNumber}.
Import PostgresDbCredentials.

(** X13. When one of the four required fields is empty the self-test answers
    at once: no pool, no query. *)
Theorem test_requires_fields :
  forall (data : Data) (w : World),
    host data = "" \/ database data = "" \/ user data = "" \/ password data = "" ->
    test data w = (inr (failure "Host, database, user, and password are required"), w).
Proof.
  intros data w H. unfold test.
  assert (Hmissing : negb (str_truthy (host data)) || negb (str_truthy (database data))
                     || negb (str_truthy (user data)) || negb (str_truthy (password data))
                     = true).
  { destruct H as [H | [H | [H | H]]]; rewrite H; cbn;
      repeat rewrite orb_true_r; reflexivity. }
  now rewrite Hmissing.
Qed.

Lemma digits_and_dots_stop digits rest :
  version_text digits = true -> ends_version rest = true ->
  digits_and_dots (digits ++ rest) = digits.
Proof.
  intros Hdigits Hrest.
  induction digits as [| c more IH]; cbn [append digits_and_dots version_text] in *.
  - destruct rest as [| c rest]; [reflexivity |].
    cbn [ends_version digits_and_dots] in *.
    now destruct (is_digit_or_dot c).
  - apply andb_prop in Hdigits as [Hc Hmore]. rewrite Hc. now rewrite IH.
Qed.

Lemma digits_and_dots_text s : version_text (digits_and_dots s) = true.
Proof.
  induction s as [| c rest IH]; [reflexivity |]. cbn [digits_and_dots].
  destruct (is_digit_or_dot c) eqn:Hc; [cbn [version_text]; now rewrite Hc | reflexivity].
Qed.

Lemma match_version_here s captured c more :
  strip_prefix "PostgreSQL " s = Some captured ->
  digits_and_dots captured = String c more ->
  match_version s = Some (String c more).
Proof.
  intros Hprefix Hdigits. destruct s as [| a s']; [discriminate |].
  cbn [match_version]. now rewrite Hprefix, Hdigits.
Qed.

(** X14. The version the self-test shows: a text that starts with
    [PostgreSQL], a space and a run of digits and dots gives that run;
    and whatever is found is a non-empty run of digits and dots. *)
Theorem match_version_number :
  (forall digits rest,
      digits <> "" -> version_text digits = true -> ends_version rest = true ->
      match_version ("PostgreSQL " ++ digits ++ rest) = Some digits)
  /\ (forall s found,
        match_version s = Some found -> found <> "" /\ version_text found = true).
Proof.
  split.
  - intros digits rest Hsome Hdigits Hrest.
    destruct digits as [| c more]; [contradiction |].
    apply match_version_here with (captured := String c more ++ rest).
    + reflexivity.
    + now apply digits_and_dots_stop.
  - induction s as [| a s' IH]; intros found.
    + cbn. discriminate.
    + cbn [match_version].
      destruct (strip_prefix "PostgreSQL " (String a s')) as [captured |].
      * pose proof (digits_and_dots_text captured) as Htext.
        destruct (digits_and_dots captured) as [| c more].
        -- apply IH.
        -- intros H. injection H as <-. split; [discriminate | exact Htext].
      * apply IH.
Qed.

(** X15. When the server answers with a row whose [version] is a string, the
    self-test succeeds: its message shows the version number found in
    that string, or [Unknown], and where it connected; one query was
    sent and the pool was ended once. *)
Theorem test_succeeds :
  forall (data : Data) (w : World) result row rest version,
    str_truthy (host data) = true -> str_truthy (database data) = true ->
    str_truthy (user data) = true -> str_truthy (password data) = true ->
    server w (sent w) (test_query, []) = inr result ->
    rows result = row :: rest ->
    get row "version" = JStr version ->
    fst (test data w)
    = inr {| success := true;
             message := "Connected successfully to PostgreSQL "
                        ++ match match_version version with
                           | Some v => v
                           | None => "Unknown"
                           end
                        ++ " at " ++ host data ++ ":"
                        ++ num_toString (port_or_default (port data))
                        ++ "/" ++ database data |}
    /\ sent (snd (test data w)) = (sent w ++ [(test_query, [])])%list
    /\ ended (snd (test data w)) = S (ended w).
Proof.
  intros data w result row rest version Hh Hd Hu Hp Hanswer Hrows Hversion.
  rewrite (test_complete data Hh Hd Hu Hp).
  unfold try_catch, bind, new_Pool, pool_query, pool_end.
  cbn [server sent pools ended fst snd]. rewrite Hanswer, Hrows.
  destruct row; try discriminate.
  unfold read. cbn [get] in *. unfold ret at 1. rewrite Hversion.
  repeat split.
Qed.

End SelfTestRuns.

(** ** The option loaders *)

Section Loaders.
Context {num : JsNumber}.
Variable this : This.

(** X16. Without usable credentials [getTables] returns one entry that says
    so, with an empty value, and creates no pool: for absent credentials
    and for credentials without a host the entry asks to select
    credentials; when fetching them threw, the entry carries the message
    of the error. *)
Theorem getTables_without_credentials :
  forall (w : World),
    (getCredentials this = inr None -> getTables this w = (inr [no_credentials_selected], w))
    /\ (forall credentials,
          getCredentials this = inr (Some credentials) ->
          Cred.host credentials = "" ->
          getTables this w = (inr [no_credentials_selected], w))
    /\ (forall error,
          getCredentials this = inl error ->
          getTables this w
          = (inr [option_item (JStr "Error: Credentials required") (JStr "")
                              (JStr (err_message error))], w)).
Proof.
  intros w. unfold getTables. repeat split.
  - intros H. now rewrite H.
  - intros credentials H Hhost. now rewrite H, Hhost.
  - intros error H. now rewrite H.
Qed.

(** Mapping a callback that first reads a property over rows that are
    objects never throws. *)
Lemma mapM_objects (g : JsVal -> JsVal -> JsVal) (k : string) (rows : list JsVal) w :
  forallb is_object rows = true ->
  mapM (fun row => bind (read row k) (fun v => ret (g row v))) rows w
  = (inr (map (fun row => g row (get row k)) rows), w).
Proof.
  induction rows as [| row rest IH]; intros Hobjects; [reflexivity |].
  cbn [forallb] in Hobjects. apply andb_prop in Hobjects as [Hrow Hrest].
  cbn [mapM map]. unfold bind at 1.
  destruct row; try discriminate. cbn [read].
  specialize (IH Hrest). unfold bind, ret in *. now rewrite IH.
Qed.

(** X17. When the catalog query succeeds, [getTables] returns one entry per
    row, in the order of the rows: name and value are the table name,
    the description is [Table: ] and the name.  The pool it used is
    capped at one connection; one query, without parameters, was sent
    and the pool was ended once. *)
Theorem getTables_lists_tables :
  forall credentials (w : World) result,
    getCredentials this = inr (Some credentials) ->
    str_truthy (Cred.host credentials) = true ->
    server w (sent w) (tables_query, []) = inr result ->
    forallb is_object (rows result) = true ->
    fst (getTables this w) = inr (map table_option (rows result))
    /\ pools (snd (getTables this w))
       = (pools w ++ [loadOptions_pool_config this credentials])%list
    /\ max (loadOptions_pool_config this credentials) = num_of_Z 1
    /\ sent (snd (getTables this w)) = (sent w ++ [(tables_query, [])])%list
    /\ ended (snd (getTables this w)) = S (ended w).
Proof.
  intros credentials w result Hc Hh Hanswer Hobjects.
  assert (Hrun : getTables this w
                 = (inr (map table_option (rows result)),
                    closed (having_sent (opened (loadOptions_pool_config this credentials) w)
                                        (tables_query, [])))).
  { unfold getTables. rewrite Hc, Hh. cbn [negb].
    unfold bind at 1. cbn [new_Pool]. unfold try_catch, bind at 1, pool_query at 1.
    cbn [server sent]. rewrite Hanswer. unfold bind at 1, pool_end at 1.
    rewrite (mapM_objects
               (fun _ name => option_item name name (JStr ("Table: " ++ ToString name)))
               "table_name" (rows result) _ Hobjects).
    reflexivity. }
  rewrite Hrun. repeat split.
Qed.

(** X18. [getColumnsForMap] returns nothing, and creates no pool, when no
    table is selected, whatever the credentials are, and when the
    credentials are absent, have no host, or could not be fetched. *)
Theorem getColumnsForMap_asks_nothing :
  forall (w : World),
    (table (getNodeParameter this) = "" -> getColumnsForMap this w = (inr [], w))
    /\ (unusable_credentials this -> getColumnsForMap this w = (inr [], w)).
Proof.
  intros w. unfold getColumnsForMap. split.
  - intros H. now rewrite H.
  - intros H. destruct (negb _); [reflexivity |].
    destruct H as [H | [(credentials & H & Hhost) | (error & H)]]; rewrite H;
      try reflexivity.
    now rewrite Hhost.
Qed.

(** X19. With a table selected and credentials at hand, [getColumnsForMap]
    sends the catalog query with the table name as its one parameter:
    the name is not written into the text.  When the query fails it
    returns nothing; when it succeeds it returns one entry per row, in
    the order of the rows.  In both cases one pool was created, that one
    query was sent, and the pool was ended once. *)
Theorem getColumnsForMap_lists_columns :
  forall credentials (w : World),
    table (getNodeParameter this) <> "" ->
    getCredentials this = inr (Some credentials) ->
    str_truthy (Cred.host credentials) = true ->
    let q := (columns_query, [JStr (table (getNodeParameter this))]) in
    let w' := closed (having_sent (opened (loadOptions_pool_config this credentials) w) q) in
    sent w' = (sent w ++ [q])%list
    /\ ended w' = S (ended w)
    /\ (forall error,
          server w (sent w) q = inl error -> getColumnsForMap this w = (inr [], w'))
    /\ (forall result,
          server w (sent w) q = inr result ->
          forallb is_object (rows result) = true ->
          getColumnsForMap this w = (inr (map column_option (rows result)), w')).
Proof.
  intros credentials w Htable Hc Hh q w'.
  assert (Hrun : getColumnsForMap this w
                 = match server w (sent w) q with
                   | inl _ => (inr [], w')
                   | inr result =>
                       try_catch (mapM column_item (rows result))
                                 (fun _ => bind pool_end (fun _ => ret [])) w'
                   end).
  { unfold getColumnsForMap, str_truthy at 1.
    apply String.eqb_neq in Htable. rewrite Htable. cbn [negb]. rewrite Hc, Hh. cbn [negb].
    unfold bind at 1. cbn [new_Pool]. unfold try_catch, bind at 1, pool_query at 1.
    cbn [server sent]. fold q.
    destruct (server w (sent w) q) as [error | result]; [reflexivity |].
    unfold bind at 1, pool_end at 1. reflexivity. }
  rewrite Hrun. clear Hrun.
  split; [reflexivity | split; [reflexivity | split]].
  - intros error H. now rewrite H.
  - intros result H Hobjects. rewrite H.
    unfold try_catch, column_item.
    now rewrite (mapM_objects
                   (fun row _ =>
                      JObj [("name", get row "column_name");
                            ("value", get row "column_name");
                            ("displayName", get row "column_name");
                            ("description", JStr (join " " (typeInfo row)));
                            ("type", JStr "expression");
                            ("placeholder",
                             JStr ("Enter value for " ++ ToString (get row "column_name")
                                   ++ "..."))])
                   "data_type" (rows result) _ Hobjects).
Qed.

End Loaders.

(** ** The further properties on concrete runs *)

Lemma operation_sends_at_most_once_witness :
  sent_at_most_once
    (run_operation Fixtures.parse Fixtures.insert_blank "insert" 0 Fixtures.answering)
    Fixtures.answering.
Proof.
  exact (operation_sends_at_most_once Fixtures.parse Fixtures.insert_blank "insert" 0
                                      Fixtures.answering).
Defined.

Lemma invalid_json_rejected_witness :
  columnsMap (getNodeParameter Fixtures.insert_garbage) 0 = JStr "{name:"
  /\ run_operation Fixtures.parse Fixtures.insert_garbage "insert" 0 Fixtures.answering
     = (inl (Error "Invalid JSON in columnsMap: Unexpected token"), Fixtures.answering).
Proof.
  split; [reflexivity |].
  exact (proj1 (invalid_json_rejected Fixtures.parse Fixtures.insert_garbage 0
                  Fixtures.answering "{name:"
                  {| err_name := "SyntaxError"; err_message := "Unexpected token";
                     err_code := None |}
                  eq_refl eq_refl)).
Defined.

Lemma insert_statement_witness :
  sent (snd (run_operation Fixtures.parse Fixtures.insert_two "insert" 0 Fixtures.answering))
  = [("INSERT INTO users (" ++ dquote ++ "name" ++ dquote ++ ", "
      ++ dquote ++ "email" ++ dquote ++ ") VALUES ($1, $2) RETURNING *",
      [JStr "Jane"; JStr "jane@x.com"])].
Proof.
  refine (f_equal sent
            (proj1 (insert_statement Fixtures.parse Fixtures.insert_two 0 Fixtures.answering
                      (JObj [("name", JStr "Jane"); ("email", JStr "jane@x.com")])
                      [("name", JStr "Jane"); ("email", JStr "jane@x.com")]
                      eq_refl eq_refl _))).
  discriminate.
Defined.

Lemma bare_select_witness :
  whereParams (getNodeParameter Fixtures.select_all) = "1, 2"
  /\ sent (snd (run_operation Fixtures.parse Fixtures.select_all "select" 0
                              Fixtures.answering))
     = [("SELECT * FROM users", [])].
Proof.
  split; [reflexivity |].
  exact (f_equal sent
           (bare_select Fixtures.parse Fixtures.select_all 0 Fixtures.answering
                        eq_refl eq_refl eq_refl)).
Defined.

Lemma delete_statement_witness :
  sent (snd (run_operation Fixtures.parse Fixtures.delete_one "delete" 0 Fixtures.answering))
  = [("DELETE FROM users WHERE id = $1", [JStr "7"])].
Proof.
  refine (f_equal sent
            (proj1 (delete_statement Fixtures.parse Fixtures.delete_one 0
                                     Fixtures.answering _))).
  discriminate.
Defined.

Lemma credentials_come_first_witness :
  execute Fixtures.parse
          (Fixtures.without_credentials (getNodeParameter Fixtures.deactivate))
          Fixtures.three_items Fixtures.answering
  = (inl (Error ("Failed to get credentials: " ++ credentials_required)),
     Fixtures.answering).
Proof.
  exact (proj1 (credentials_come_first Fixtures.parse
                  (Fixtures.without_credentials (getNodeParameter Fixtures.deactivate))
                  Fixtures.three_items Fixtures.answering)
               eq_refl).
Defined.

Lemma one_pool_per_run_witness :
  ended (snd (execute Fixtures.parse (Fixtures.insert_three Fixtures.continuing)
                      Fixtures.three_items Fixtures.answering))
  = 1.
Proof.
  exact (proj1 (proj2 (one_pool_per_run Fixtures.parse
                         (Fixtures.insert_three Fixtures.continuing)
                         Fixtures.three_items Fixtures.credentials Fixtures.answering
                         eq_refl eq_refl))).
Defined.

Lemma one_record_per_item_witness :
  exists results,
    fst (execute Fixtures.parse (Fixtures.insert_three Fixtures.continuing)
                 Fixtures.three_items Fixtures.answering)
    = inr (output results).
Proof.
  exact (proj2 (one_record_per_item Fixtures.parse
                  (Fixtures.insert_three Fixtures.continuing)
                  Fixtures.three_items Fixtures.credentials Fixtures.answering
                  eq_refl eq_refl)
               eq_refl).
Defined.

Lemma items_only_count_witness :
  execute Fixtures.parse Fixtures.deactivate Fixtures.three_items Fixtures.answering
  = execute Fixtures.parse Fixtures.deactivate
            {| main := Some [[JNull; JStr "x"; JObj []]] |} Fixtures.answering.
Proof.
  exact (items_only_count Fixtures.parse Fixtures.deactivate Fixtures.three_items
                          {| main := Some [[JNull; JStr "x"; JObj []]] |}
                          Fixtures.answering eq_refl).
Defined.


Lemma settings_win_witness :
  exists config,
    pools (snd (execute Fixtures.parse Fixtures.ssl_off Fixtures.no_input
                        Fixtures.answering))
    = [config]
    /\ Pg.ssl config = false
    /\ Pg.port config = 5432%Z.
Proof.
  destruct (settings_win Fixtures.parse Fixtures.ssl_off Fixtures.no_input
                         Fixtures.ssl_credentials Fixtures.answering eq_refl eq_refl)
    as (config & Hpools & Hssl & _ & _ & _ & _ & Hport & _).
  exists config. split; [exact Hpools | split].
  - exact (Hssl false eq_refl).
  - exact (Hport 0%Z eq_refl).
Defined.

Lemma test_requires_fields_witness :
  PostgresDbCredentials.test Fixtures.hostless Fixtures.answering
  = (inr (PostgresDbCredentials.failure "Host, database, user, and password are required"),
     Fixtures.answering).
Proof.
  exact (test_requires_fields Fixtures.hostless Fixtures.answering (or_introl eq_refl)).
Defined.

Lemma match_version_number_witness :
  PostgresDbCredentials.match_version "PostgreSQL 15.3 on x86_64-pc-linux-gnu" = Some "15.3".
Proof.
  refine (proj1 match_version_number "15.3" " on x86_64-pc-linux-gnu" _ eq_refl eq_refl).
  discriminate.
Defined.

Lemma test_succeeds_witness :
  fst (PostgresDbCredentials.test Fixtures.credentials Fixtures.versioned)
  = inr {| PostgresDbCredentials.success := true;
           PostgresDbCredentials.message :=
             "Connected successfully to PostgreSQL 15.3 at db.example.com:5432/app" |}.
Proof.
  exact (proj1 (test_succeeds Fixtures.credentials Fixtures.versioned _ _ _
                  "PostgreSQL 15.3 on x86_64-pc-linux-gnu"
                  eq_refl eq_refl eq_refl eq_refl eq_refl eq_refl eq_refl)).
Defined.

Lemma getTables_without_credentials_witness :
  getTables (Fixtures.without_credentials (getNodeParameter Fixtures.deactivate))
            Fixtures.answering
  = (inr [no_credentials_selected], Fixtures.answering).
Proof.
  exact (proj1 (getTables_without_credentials
                  (Fixtures.without_credentials (getNodeParameter Fixtures.deactivate))
                  Fixtures.answering)
               eq_refl).
Defined.

Lemma getTables_lists_tables_witness :
  fst (getTables Fixtures.fixed_query Fixtures.catalog)
  = inr [option_item (JStr "users") (JStr "users") (JStr "Table: users")].
Proof.
  exact (proj1 (getTables_lists_tables Fixtures.fixed_query Fixtures.credentials
                  Fixtures.catalog Fixtures.catalog_answer
                  eq_refl eq_refl eq_refl eq_refl)).
Defined.

Lemma getColumnsForMap_asks_nothing_witness :
  getColumnsForMap Fixtures.no_table Fixtures.catalog = (inr [], Fixtures.catalog).
Proof.
  exact (proj1 (getColumnsForMap_asks_nothing Fixtures.no_table Fixtures.catalog) eq_refl).
Defined.

Lemma getColumnsForMap_lists_columns_witness :
  fst (getColumnsForMap Fixtures.deactivate Fixtures.catalog)
  = inr [JObj [("name", JStr "email");
               ("value", JStr "email");
               ("displayName", JStr "email");
               ("description", JStr "character varying (255) nullable");
               ("type", JStr "expression");
               ("placeholder", JStr "Enter value for email...")]]
  /\ sent (snd (getColumnsForMap Fixtures.deactivate Fixtures.catalog))
     = [(columns_query, [JStr "users"])].
Proof.
  pose proof (proj2 (proj2 (proj2
                (getColumnsForMap_lists_columns Fixtures.deactivate Fixtures.credentials
                   Fixtures.catalog ltac:(discriminate) eq_refl eq_refl)))
                Fixtures.catalog_answer eq_refl eq_refl) as H.
  split.
  - exact (f_equal fst H).
  - exact (f_equal (fun r => sent (snd r)) H).
Defined.
